(** * Verification of the Supabase extractor (src/extractor.ts)

    A shallow embedding of the extraction and reconstruction engine:
    table discovery, paginated row extraction, per-table fault isolation,
    SQL value formatting, identifier quoting and script generation.

    The class modelled is the one with the column-type cache and the
    includeDropStatements parameter (the most complete of the versions of
    SupabaseExtractor kept in the source file).

    Strings are sequences of bytes (the UTF-8 encoding of the JavaScript
    string); every character the code inspects (quotes, brackets, control
    characters) is ASCII, so byte-wise and code-unit-wise processing agree.
    Console output is diagnostic only and is not part of the model. *)

From Stdlib Require Import ZArith NArith Ascii String List Bool Lia.
From Stdlib Require Import Floats.SpecFloat.
From stdpp Require Import base option list strings gmap.

Local Open Scope Z_scope.

(** ** JavaScript run-time library used by the extractor *)

Module JS.

(** *** Strings *)

(** [s.replace(/c/g, by)] for a one-character pattern [c]. *)
Fixpoint replaceAll (c : ascii) (by_ : string) (s : string) : string :=
  match s with
  | EmptyString => EmptyString
  | String a rest =>
      if Ascii.eqb a c then by_ +:+ replaceAll c by_ rest
      else String a (replaceAll c by_ rest)
  end.

(** [items.join(sep)] on an array of strings. *)
Fixpoint join (sep : string) (items : list string) : string :=
  match items with
  | [] => ""
  | [x] => x
  | x :: rest => x +:+ sep +:+ join sep rest
  end.

(** [s.endsWith(suffix)]. *)
Definition endsWith (s suffix : string) : bool :=
  let n := String.length s in
  let k := String.length suffix in
  if (k <=? n)%nat then String.eqb (substring (n - k) k s) suffix else false.

(** A non-empty string is truthy, the empty string is falsy. *)
Definition truthy (s : string) : bool :=
  match s with EmptyString => false | String _ _ => true end.

Fixpoint repeat_string (n : nat) (s : string) : string :=
  match n with
  | O => ""
  | S k => s +:+ repeat_string k s
  end.

(** First [n] characters and the remainder. *)
Fixpoint takeChars (n : nat) (s : string) : string :=
  match n, s with
  | S k, String a rest => String a (takeChars k rest)
  | _, _ => ""
  end.

Fixpoint dropChars (n : nat) (s : string) : string :=
  match n, s with
  | S k, String _ rest => dropChars k rest
  | _, _ => s
  end.

(** *** Decimal rendering of integers *)

Definition digit_char (d : N) : ascii := ascii_of_N (48 + d).

Fixpoint decimal_go (fuel : nat) (n : N) (acc : string) : string :=
  let acc' := String (digit_char (n mod 10)%N) acc in
  match fuel with
  | O => acc'
  | S f => if (n / 10 =? 0)%N then acc' else decimal_go f (n / 10)%N acc'
  end.

(** Decimal digits of a natural number, most significant first. *)
Definition decimal (n : N) : string :=
  decimal_go (N.to_nat (N.log2 n)) n "".

(** Decimal digits padded with zeros on the left to a width of [w]. *)
Definition padStart (w : nat) (n : N) : string :=
  let d := decimal n in
  repeat_string (w - String.length d) "0" +:+ d.

(** *** Numbers: IEEE 754 binary64 values

    A Number is a [spec_float]; the finite non-zero ones are
    [S754_finite s m e], of value (-1)^s * m * 2^e, in canonical form
    (m below 2^53, e at least -1074). *)

Definition number := spec_float.

(** [Number.isFinite(x)]. *)
Definition Number_isFinite (x : number) : bool :=
  match x with
  | S754_zero _ | S754_finite _ _ _ => true
  | S754_infinity _ | S754_nan => false
  end.

(** Comparison of x * 2^e with s * 10^q through cross multiplication. *)
Definition scale2 (e q : Z) (x : Z) : Z := x * 2 ^ Z.max e 0 * 10 ^ Z.max (- q) 0.
Definition scale10 (e q : Z) (s : Z) : Z := s * 10 ^ Z.max q 0 * 2 ^ Z.max (- e) 0.

(** Does the decimal s * 10^q round (to nearest, ties to even) to the
    binary64 value m * 2^e? The rounding interval of the value is bounded
    by the midpoints to its two neighbours, in units of 2^(e-2). *)
Definition roundsTo (m e s q : Z) : bool :=
  let lo := if (m =? 2 ^ 52) && (-1074 <? e) then 4 * m - 1 else 4 * m - 2 in
  let hi := 4 * m + 2 in
  let L := scale2 (e - 2) q lo in
  let H := scale2 (e - 2) q hi in
  let D := scale10 (e - 2) q s in
  if Z.even m then (L <=? D) && (D <=? H) else (L <? D) && (D <? H).

(** The least n with m * 2^e < 10^n, searched upwards from an
    under-estimate obtained from the binary exponent (log10 2 is a
    little less than 0.30103). *)
Fixpoint decimalExponent_go (fuel : nat) (m e n : Z) : Z :=
  match fuel with
  | O => n
  | S f =>
      if scale2 e n m <? scale10 e n 1 then n
      else decimalExponent_go f m e (n + 1)
  end.

Definition decimalExponent (m e : Z) : Z :=
  decimalExponent_go 8 m e ((e + Z.log2 m) * 30103 / 100000 - 1).

(** The k-digit candidates s for a given n: the two multiples of
    10^(n-k) around the value, kept when they have k digits and round
    to the value; the closest one first, the even one on a tie. *)
Definition candidates (m e k n : Z) : list Z :=
  let q := n - k in
  let s0 := scale2 e q m / scale10 e q 1 in
  let ok s := (10 ^ (k - 1) <=? s) && (s <? 10 ^ k) && roundsTo m e s q in
  let dist s := Z.abs (scale10 e q s - scale2 e q m) in
  let lo := if ok s0 then [s0] else [] in
  let hi := if ok (s0 + 1) then [s0 + 1] else [] in
  match lo, hi with
  | [a], [b] =>
      if dist a <? dist b then [a; b]
      else if dist b <? dist a then [b; a]
      else if Z.even a then [a; b] else [b; a]
  | _, _ => lo ++ hi
  end.

(** The shortest digit string: the least k from 1 for which integers
    n and s exist with 10^(k-1) <= s < 10^k and s * 10^(n-k) rounding to
    the value. Seventeen digits always suffice for binary64. *)
Fixpoint shortest_go (fuel : nat) (m e n0 k : Z) : Z * Z * Z :=
  match candidates m e k n0, candidates m e k (n0 + 1) with
  | s :: _, _ => (s, k, n0)
  | [], s :: _ => (s, k, n0 + 1)
  | [], [] =>
      match fuel with
      | O => (scale2 e (n0 - k) m / scale10 e (n0 - k) 1, k, n0)
      | S f => shortest_go f m e n0 (k + 1)
      end
  end.

Definition shortest (m e : Z) : Z * Z * Z :=
  shortest_go 16 m e (decimalExponent m e) 1.

(** Layout of the digits s (k of them) with decimal exponent n. *)
Definition layout (s k n : Z) : string :=
  let digits := decimal (Z.to_N s) in
  if (k <=? n) && (n <=? 21) then
    digits +:+ repeat_string (Z.to_nat (n - k)) "0"
  else if (0 <? n) && (n <=? 21) then
    takeChars (Z.to_nat n) digits +:+ "." +:+ dropChars (Z.to_nat n) digits
  else if (-6 <? n) && (n <=? 0) then
    "0." +:+ repeat_string (Z.to_nat (- n)) "0" +:+ digits
  else
    let ex := n - 1 in
    let sign := if ex <? 0 then "-" else "+" in
    let mantissa :=
      if k =? 1 then digits
      else takeChars 1 digits +:+ "." +:+ dropChars 1 digits in
    mantissa +:+ "e" +:+ sign +:+ decimal (Z.to_N (Z.abs ex)).

(** [x.toString()] for a Number (radix 10). *)
Definition Number_toString (x : number) : string :=
  match x with
  | S754_nan => "NaN"
  | S754_zero _ => "0"
  | S754_infinity s => if s then "-Infinity" else "Infinity"
  | S754_finite s m e =>
      let '(d, k, n) := shortest (Z.pos m) e in
      (if s then "-" else "") +:+ layout d k n
  end.

(** *** Characters the code mentions *)

Definition squote : ascii := "'"%char.
Definition dquote : ascii := "034"%char.
Definition backslash : ascii := "092"%char.
Definition newline : string := String "010"%char "".

(** *** Exceptions *)

Inductive error : Type :=
| Error (message : string)
| TypeError (message : string)
| RangeError (message : string).

(** The completion of a computation: a value, or a thrown exception. *)
Inductive outcome (A : Type) : Type :=
| Return (a : A)
| Throw (e : error).
Arguments Return {A} a.
Arguments Throw {A} e.

Definition obind {A B} (c : outcome A) (k : A -> outcome B) : outcome B :=
  match c with
  | Return a => k a
  | Throw e => Throw e
  end.

Definition omap {A B} (f : A -> B) (c : outcome A) : outcome B :=
  obind c (fun a => Return (f a)).

(** *** Dates: a time value in milliseconds since the epoch, or NaN *)

Definition msPerDay : Z := 86400000.

(** Year, month (1-12) and day of the month of a day number. *)
Definition civilFromDays (day : Z) : Z * Z * Z :=
  let z := day + 719468 in
  let era := z / 146097 in
  let doe := z - era * 146097 in
  let yoe := (doe - doe / 1460 + doe / 36524 - doe / 146096) / 365 in
  let doy := doe - (365 * yoe + yoe / 4 - yoe / 100) in
  let mp := (5 * doy + 2) / 153 in
  let d := doy - (153 * mp + 2) / 5 + 1 in
  let m := if mp <? 10 then mp + 3 else mp - 9 in
  let y := yoe + era * 400 + (if m <=? 2 then 1 else 0) in
  (y, m, d).

Definition pad (w : nat) (z : Z) : string := padStart w (Z.to_N z).

Definition timeOfDay (t : Z) : string :=
  let ms := t mod msPerDay in
  pad 2 (ms / 3600000) +:+ ":" +:+ pad 2 (ms / 60000 mod 60) +:+ ":" +:+
  pad 2 (ms / 1000 mod 60).

(** [d.toISOString()] of a valid date. *)
Definition isoString (t : Z) : string :=
  let '(y, m, d) := civilFromDays (t / msPerDay) in
  let year :=
    if (0 <=? y) && (y <=? 9999) then pad 4 y
    else (if y <? 0 then "-" else "+") +:+ pad 6 (Z.abs y) in
  year +:+ "-" +:+ pad 2 m +:+ "-" +:+ pad 2 d +:+ "T" +:+ timeOfDay t +:+
  "." +:+ pad 3 (t mod 1000) +:+ "Z".

(** [d.toISOString()]: an invalid date raises a RangeError. *)
Definition Date_toISOString (t : option Z) : outcome string :=
  match t with
  | None => Throw (RangeError "Invalid time value")
  | Some t => Return (isoString t)
  end.

Definition weekDayName (t : Z) : string :=
  nth (Z.to_nat ((t / msPerDay + 4) mod 7))
      ["Sun"; "Mon"; "Tue"; "Wed"; "Thu"; "Fri"; "Sat"] "".

Definition monthName (m : Z) : string :=
  nth (Z.to_nat (m - 1))
      ["Jan"; "Feb"; "Mar"; "Apr"; "May"; "Jun";
       "Jul"; "Aug"; "Sep"; "Oct"; "Nov"; "Dec"] "".

(** [d.toString()], the host time zone being UTC. *)
Definition Date_toString (t : option Z) : string :=
  match t with
  | None => "Invalid Date"
  | Some t =>
      let '(y, m, d) := civilFromDays (t / msPerDay) in
      weekDayName t +:+ " " +:+ monthName m +:+ " " +:+ pad 2 d +:+ " " +:+
      (if y <? 0 then "-" else "") +:+ pad 4 (Z.abs y) +:+ " " +:+
      timeOfDay t +:+ " GMT+0000 (Coordinated Universal Time)"
  end.

(** *** Values *)

#[local] Set Warnings "-register-all".

Inductive value : Type :=
| VUndefined
| VNull
| VBoolean (b : bool)
| VNumber (x : number)
| VBigInt (z : Z)
| VString (s : string)
| VSymbol (description : option string)
| VFunction (source : string)
| VDate (t : option Z)
| VArray (items : list value)
| VObject (props : list (string * value)).

(** [typeof v]. *)
Definition typeof (v : value) : string :=
  match v with
  | VUndefined => "undefined"
  | VBoolean _ => "boolean"
  | VNumber _ => "number"
  | VBigInt _ => "bigint"
  | VString _ => "string"
  | VSymbol _ => "symbol"
  | VFunction _ => "function"
  | VNull | VDate _ | VArray _ | VObject _ => "object"
  end.

Definition BigInt_toString (z : Z) : string :=
  (if z <? 0 then "-" else "") +:+ decimal (Z.to_N (Z.abs z)).

(** The abstract operation ToString; a Symbol cannot be converted.
    An array converts through [join(",")], where undefined and null
    elements give the empty string. *)
Fixpoint ToString (v : value) : outcome string :=
  match v with
  | VUndefined => Return "undefined"
  | VNull => Return "null"
  | VBoolean b => Return (if b then "true" else "false")
  | VNumber x => Return (Number_toString x)
  | VBigInt z => Return (BigInt_toString z)
  | VString s => Return s
  | VSymbol _ => Throw (TypeError "Cannot convert a Symbol value to a string")
  | VFunction src => Return src
  | VDate t => Return (Date_toString t)
  | VArray items =>
      omap (join ",")
        ((fix elements (l : list value) : outcome (list string) :=
            match l with
            | [] => Return []
            | x :: rest =>
                obind (match x with
                       | VUndefined | VNull => Return ""
                       | _ => ToString x
                       end)
                  (fun s => omap (cons s) (elements rest))
            end) items)
  | VObject _ => Return "[object Object]"
  end.

(** [String(v)]: as ToString, but a Symbol gives its description. *)
Definition String_ (v : value) : outcome string :=
  match v with
  | VSymbol d => Return ("Symbol(" +:+ default "" d +:+ ")")
  | _ => ToString v
  end.

(** *** JSON.stringify *)

Definition hexDigit (d : N) : ascii :=
  if (d <? 10)%N then ascii_of_N (48 + d) else ascii_of_N (87 + d).

Definition quoteJSONChar (a : ascii) : string :=
  let n := N_of_ascii a in
  if (n =? 8)%N then String backslash "b"
  else if (n =? 9)%N then String backslash "t"
  else if (n =? 10)%N then String backslash "n"
  else if (n =? 12)%N then String backslash "f"
  else if (n =? 13)%N then String backslash "r"
  else if (n =? 34)%N then String backslash (String dquote "")
  else if (n =? 92)%N then String backslash (String backslash "")
  else if (n <? 32)%N then
    String backslash ("u00" +:+ String (hexDigit (n / 16)) (String (hexDigit (n mod 16)) ""))
  else String a "".

Fixpoint quoteJSONBody (s : string) : string :=
  match s with
  | EmptyString => ""
  | String a rest => quoteJSONChar a +:+ quoteJSONBody rest
  end.

Definition quoteJSONString (s : string) : string :=
  String dquote (quoteJSONBody s +:+ String dquote "").

(** SerializeJSONProperty without indentation: [None] stands for
    undefined. A Date is serialized through its [toJSON] (null when
    invalid); a BigInt raises a TypeError; undefined, functions and symbols
    are skipped in objects and become null in arrays. *)
Fixpoint serializeJSON (v : value) : outcome (option string) :=
  match v with
  | VUndefined | VSymbol _ | VFunction _ => Return None
  | VNull => Return (Some "null")
  | VBoolean b => Return (Some (if b then "true" else "false"))
  | VNumber x =>
      Return (Some (if Number_isFinite x then Number_toString x else "null"))
  | VBigInt _ => Throw (TypeError "Do not know how to serialize a BigInt")
  | VString s => Return (Some (quoteJSONString s))
  | VDate None => Return (Some "null")
  | VDate (Some t) => Return (Some (quoteJSONString (isoString t)))
  | VArray items =>
      omap (fun parts => Some ("[" +:+ join "," parts +:+ "]"))
        ((fix elements (l : list value) : outcome (list string) :=
            match l with
            | [] => Return []
            | x :: rest =>
                obind (serializeJSON x)
                  (fun s => omap (cons (default "null" s)) (elements rest))
            end) items)
  | VObject props =>
      omap (fun parts => Some ("{" +:+ join "," parts +:+ "}"))
        ((fix members (l : list (string * value)) : outcome (list string) :=
            match l with
            | [] => Return []
            | (k, x) :: rest =>
                obind (serializeJSON x)
                  (fun s =>
                     match s with
                     | None => members rest
                     | Some str =>
                         omap (cons (quoteJSONString k +:+ ":" +:+ str))
                              (members rest)
                     end)
            end) props)
  end.

(** [JSON.stringify(v)]. *)
Definition JSON_stringify (v : value) : outcome (option string) :=
  serializeJSON v.

End JS.

Import JS.

(** ** Data model *)

Record TableInfo : Type := { name : string; schema : string }.

Record SupabaseExtractorConfig : Type := {
  supabaseUrl : string;
  supabaseKey : string;
  databaseUrl : option string;
  verbose : option bool;
}.

(** A row is an object: its own properties in enumeration order. *)
Definition row : Type := list (string * value).

(** [Object.keys(r)] and [r[col]]. *)
Definition Object_keys (r : row) : list string := map fst r.

Fixpoint getProp (r : row) (col : string) : value :=
  match r with
  | [] => VUndefined
  | (k, v) :: rest => if String.eqb k col then v else getProp rest col
  end.

(** The column-type cache [this.columnTypes]. *)
Abbreviation ColumnTypes := (gmap string (gmap string string)).

(** The dataset mapping [Record<string, any[]>]. *)
Abbreviation Dataset := (gmap string (list row)).

(** ** The outside world

    Every call the engine makes to the PostgreSQL client, the Supabase
    client or the clock is appended to the trace; what a call answers may
    depend on its arguments and on the whole trace before it, so that an
    environment is an arbitrary deterministic behaviour of the clients. *)

Inductive query : Type :=
| TablesQuery
| ColumnTypesQuery (schema_ table : string)
| EnumQuery
| CreateTableQuery (schema_ table : string)
| IndexQuery.

Inductive call : Type :=
| PgConnect (connectionString : option string)
| PgQuery (q : query)
| PgEnd
| Rpc (fn : string)
| SelectRange (table : string) (from to : Z)
| ClockNow.

(** What [supabase.rpc(...)] resolves to in its [data] field. *)
Inductive rpc_data : Type :=
| DataNothing
  (* null, undefined or any other falsy value *)
| DataArray (elements : list (option (string * option string)))
  (* an array; an element is null/undefined, or an object with its
     table_name and, possibly, table_schema *)
| DataOther.
  (* a truthy value without a map method *)

Record Env : Type := {
  pg_connect : list call -> option string -> option error;
  pg_end : list call -> option error;
  (* rows of the catalog queries: (table_name, table_schema),
     (column_name, data_type), (type_name, create_enum),
     create_statement, indexdef *)
  pg_tables : list call -> outcome (list (string * string));
  pg_columns : list call -> string -> string -> outcome (list (string * string));
  pg_enums : list call -> outcome (list (string * string));
  pg_create_table : list call -> string -> string -> outcome (list string);
  pg_indexes : list call -> outcome (list string);
  (* the restricted API: { data, error }, or a rejected promise *)
  sb_rpc : list call -> string -> outcome (rpc_data * option error);
  sb_range : list call -> string -> Z -> Z ->
             outcome (option (list row) * option error);
  (* the time value of [new Date()] *)
  clock : list call -> Z;
}.

(** The mutable state: the extractor's column-type cache and the trace. *)
Record state : Type := {
  columnTypes : ColumnTypes;
  calls : list call;
}.

Definition record_call (c : call) (st : state) : state :=
  {| columnTypes := columnTypes st; calls := calls st ++ [c] |}.

Definition set_columnTypes (table : string) (types : gmap string string)
  (st : state) : state :=
  {| columnTypes := <[table := types]> (columnTypes st); calls := calls st |}.

(** Computations: state passing with exceptions. *)
Definition M (A : Type) : Type := state -> outcome A * state.

Definition ret {A} (a : A) : M A := fun st => (Return a, st).

Definition throw {A} (e : error) : M A := fun st => (Throw e, st).

Definition bind {A B} (c : M A) (k : A -> M B) : M B :=
  fun st =>
    match c st with
    | (Return a, st') => k a st'
    | (Throw e, st') => (Throw e, st')
    end.

Notation "'let!' x ':=' c 'in' k" := (bind c (fun x => k))
  (at level 10, x pattern, c at level 100, k at level 200).

(** [try { body } finally { fin }]. *)
Definition try_finally {A} (body : M A) (fin : M unit) : M A :=
  fun st =>
    let '(r, st1) := body st in
    match fin st1 with
    | (Return _, st2) => (r, st2)
    | (Throw e, st2) => (Throw e, st2)
    end.

(** [try { body } catch (e) { handler }]. *)
Definition try_catch {A} (body : M A) (handler : error -> M A) : M A :=
  fun st =>
    match body st with
    | (Return a, st') => (Return a, st')
    | (Throw e, st') => handler e st'
    end.

Definition message (e : error) : string :=
  match e with Error m | TypeError m | RangeError m => m end.

Fixpoint mapOutcome {A B} (f : A -> outcome B) (l : list A) : outcome (list B) :=
  match l with
  | [] => Return []
  | x :: rest => obind (f x) (fun y => omap (cons y) (mapOutcome f rest))
  end.

(** Page size of the row extractor. *)
Definition limit : Z := 1000.

(** ** The extractor (class SupabaseExtractor) *)

Section Extractor.

Variable env : Env.
Variable config : SupabaseExtractorConfig.

(** [if (this.config.databaseUrl)]: set and not the empty string. *)
Definition hasDatabaseUrl : bool :=
  match databaseUrl config with
  | Some url => truthy url
  | None => false
  end.

(** *** Calls to the clients *)

Definition pgConnect : M unit := fun st =>
  let st' := record_call (PgConnect (databaseUrl config)) st in
  match pg_connect env (calls st) (databaseUrl config) with
  | None => (Return tt, st')
  | Some e => (Throw e, st')
  end.

Definition pgEnd : M unit := fun st =>
  let st' := record_call PgEnd st in
  match pg_end env (calls st) with
  | None => (Return tt, st')
  | Some e => (Throw e, st')
  end.

Definition pgQuery {A} (q : query) (answer : list call -> outcome A) : M A :=
  fun st => (answer (calls st), record_call (PgQuery q) st).

Definition rpc (fn : string) : M (rpc_data * option error) := fun st =>
  (sb_rpc env (calls st) fn, record_call (Rpc fn) st).

Definition selectRange (table : string) (from to : Z)
  : M (option (list row) * option error) := fun st =>
  (sb_range env (calls st) table from to, record_call (SelectRange table from to) st).

Definition now : M Z := fun st => (Return (clock env (calls st)), record_call ClockNow st).

(** *** Table discovery *)

Definition discoverTablesViaPg : M (list TableInfo) :=
  try_finally
    (let! _ := pgConnect in
     let! rows := pgQuery TablesQuery (pg_tables env) in
     ret (map (fun r => {| name := fst r; schema := snd r |}) rows))
    pgEnd.

(** [data.map((table) => ({ name: table.table_name,
    schema: table.table_schema || "public" }))]; reading a property of a
    null element raises a TypeError. *)
Definition tableOfRpcElement (el : option (string * option string))
  : outcome TableInfo :=
  match el with
  | None => Throw (TypeError "Cannot read properties of null")
  | Some (table_name, table_schema) =>
      Return {| name := table_name;
                schema := match table_schema with
                          | Some s => if truthy s then s else "public"
                          | None => "public"
                          end |}
  end.

Definition discoverTablesViaSupabase : M (list TableInfo) :=
  let! found :=
    try_catch
      (let! (data, error) := rpc "get_all_tables" in
       match error, data with
       | None, DataArray elements =>
           fun st => (omap Some (mapOutcome tableOfRpcElement elements), st)
       | None, DataOther => throw (TypeError "data.map is not a function")
       | _, _ => ret None
       end)
      (fun _ => ret None) in
  match found with
  | Some tables => ret tables
  | None => ret []
  end.

Definition discoverTables : M (list TableInfo) :=
  if hasDatabaseUrl then discoverTablesViaPg else discoverTablesViaSupabase.

(** *** Column types *)

(** [for (const row of result.rows) typeMap.set(row.column_name, row.data_type)] *)
Definition typeMapOf (rows : list (string * string)) : gmap string string :=
  fold_left (fun typeMap r => <[fst r := snd r]> typeMap) rows ∅.

Definition fetchColumnTypes (tableName : string) (schema_ : option string)
  : M (gmap string string) :=
  let schema_ := default "public" schema_ in
  if negb hasDatabaseUrl then ret ∅
  else
    try_finally
      (let! _ := pgConnect in
       let! rows := pgQuery (ColumnTypesQuery schema_ tableName)
                            (fun tr => pg_columns env tr schema_ tableName) in
       ret (typeMapOf rows))
      pgEnd.

(** *** Row extraction *)

(** The [while (hasMore)] loop of extractTableData; one unit of fuel per
    iteration, [None] when the fuel does not suffice. *)
Fixpoint extractTableData_loop (fuel : nat) (tableName : string)
  (allRows : list row) (offset : Z) (st : state)
  : option (outcome (list row) * state) :=
  match fuel with
  | O => None
  | S fuel' =>
      match selectRange tableName offset (offset + limit - 1) st with
      | (Throw e, st') => Some (Throw e, st')
      | (Return (_, Some error), st') =>
          Some (Throw (Error ("Error fetching data from " +:+ tableName +:+ ": "
                              +:+ message error)), st')
      | (Return (data, None), st') =>
          match data with
          | Some ((_ :: _) as page) =>
              let allRows := allRows ++ page in
              let offset := offset + limit in
              let hasMore := Z.of_nat (length page) =? limit in
              if hasMore then extractTableData_loop fuel' tableName allRows offset st'
              else Some (Return allRows, st')
          | _ => Some (Return allRows, st')
          end
      end
  end.

Definition extractTableData (fuel : nat) (tableName : string) (st : state)
  : option (outcome (list row) * state) :=
  extractTableData_loop fuel tableName [] 0 st.

(** The first loop of extractAllData: prefetch of the column types; a
    failure is reported and skipped. *)
Fixpoint prefetchColumnTypes (tables : list TableInfo) (st : state) : state :=
  match tables with
  | [] => st
  | table :: rest =>
      match fetchColumnTypes (name table) (Some (schema table)) st with
      | (Return types, st') =>
          prefetchColumnTypes rest (set_columnTypes (name table) types st')
      | (Throw _, st') => prefetchColumnTypes rest st'
      end
  end.

(** The second loop of extractAllData. *)
Fixpoint extractAllData_loop (fuel : nat) (tables : list TableInfo)
  (allData : Dataset) (st : state) : option (outcome Dataset * state) :=
  match tables with
  | [] => Some (Return allData, st)
  | table :: rest =>
      match extractTableData fuel (name table) st with
      | None => None
      | Some (Return data, st') =>
          extractAllData_loop fuel rest (<[name table := data]> allData) st'
      | Some (Throw _, st') =>
          extractAllData_loop fuel rest (<[name table := []]> allData) st'
      end
  end.

(** The guarded prefetch: [if (this.config.databaseUrl) { for ... }]. *)
Definition prefetchIfPrivileged (tables : list TableInfo) (st : state) : state :=
  if hasDatabaseUrl then prefetchColumnTypes tables st else st.

Definition extractAllData (fuel : nat) (tables : list TableInfo) (st : state)
  : option (outcome Dataset * state) :=
  let st := prefetchIfPrivileged tables st in
  extractAllData_loop fuel tables ∅ st.

End Extractor.

(** ** SQL rendering *)

(** Literal quoting: the text between single quotes, every single quote
    inside it replaced by two. *)
Definition quoteLiteral (s : string) : string :=
  String squote (replaceAll squote "''" s +:+ "'").

(** [tableName && columnName && this.columnTypes.get(tableName)?.get(columnName)]:
    [None] stands for undefined; an empty (falsy) name is the result itself. *)
Definition lookupColumnType (cts : ColumnTypes) (tableName columnName : option string)
  : option string :=
  match tableName with
  | None => None
  | Some t =>
      if negb (truthy t) then Some t
      else
        match columnName with
        | None => None
        | Some c =>
            if negb (truthy c) then Some c
            else
              match cts !! t with
              | None => None
              | Some types => types !! c
              end
        end
  end.

(** Format a value for an SQL INSERT statement. *)
Definition formatValue (cts : ColumnTypes) (v : value)
  (tableName columnName : option string) : outcome string :=
  match v with
  | VNull | VUndefined => Return "NULL"
  | VString s => Return (quoteLiteral s)
  | VBoolean b => Return (if b then "TRUE" else "FALSE")
  | VNumber x =>
      if negb (Number_isFinite x) then Return "NULL"
      else Return (Number_toString x)
  | VDate t =>
      obind (Date_toISOString t) (fun iso => Return ("'" +:+ iso +:+ "'"))
  | VArray _ | VObject _ =>
      let columnType := lookupColumnType cts tableName columnName in
      let isArrayColumn :=
        match columnType with
        | Some ct => endsWith ct "[]"
        | None => false
        end in
      match isArrayColumn, v, columnType with
      | true, VArray items, Some ct =>
          obind (mapOutcome (fun item => omap quoteLiteral (String_ item)) items)
            (fun escapedItems =>
               Return ("ARRAY[" +:+ join "," escapedItems +:+ "]::" +:+ ct))
      | _, _, _ =>
          (* try { ... } catch (e) { return "NULL" }; an undefined result
             of JSON.stringify has no replace method *)
          match JSON_stringify v with
          | Return (Some jsonStr) =>
              Return ("'" +:+ replaceAll squote "''" jsonStr +:+ "'::jsonb")
          | Return None | Throw _ => Return "NULL"
          end
      end
  | VBigInt _ | VSymbol _ | VFunction _ =>
      obind (String_ v) (fun s => Return (quoteLiteral s))
  end.

(** Identifier quoting: the identifier between double quotes, every
    double quote inside it replaced by two. *)
Definition quoteIdentifier (identifier : string) : string :=
  String dquote
    (replaceAll dquote (String dquote (String dquote "")) identifier
     +:+ String dquote "").

Definition qualifiedName (table : TableInfo) : string :=
  quoteIdentifier (schema table) +:+ "." +:+ quoteIdentifier (name table).

(** The [for (const row of tableData)] loop of generateInsertStatements. *)
Fixpoint insertRows (cts : ColumnTypes) (table : TableInfo) (tableData : list row)
  (sql : string) : outcome string :=
  match tableData with
  | [] => Return sql
  | r :: rest =>
      let columns := Object_keys r in
      obind (mapOutcome
               (fun col => formatValue cts (getProp r col) (Some (name table)) (Some col))
               columns)
        (fun values =>
           let sql := sql +:+ ("INSERT INTO " +:+ qualifiedName table +:+ " (") in
           let sql := sql +:+ join ", " (map quoteIdentifier columns) in
           let sql := sql +:+ (") VALUES (" +:+ join ", " values +:+ ");" +:+ newline) in
           insertRows cts table rest sql)
  end.

(** The [for (const table of tables)] loop of generateInsertStatements. *)
Fixpoint insertTables (cts : ColumnTypes) (data : Dataset) (includeDropStatements : bool)
  (tables : list TableInfo) (sql : string) : outcome string :=
  match tables with
  | [] => Return sql
  | table :: rest =>
      match data !! name table with
      | None | Some [] =>
          let sql := sql +:+ ("-- No data for table: " +:+ name table +:+ newline +:+ newline) in
          insertTables cts data includeDropStatements rest sql
      | Some tableData =>
          let sql :=
            if includeDropStatements then
              let sql := sql +:+ ("DROP TABLE IF EXISTS " +:+ qualifiedName table
                                  +:+ " CASCADE;" +:+ newline) in
              sql +:+ ("-- Table: " +:+ schema table +:+ "." +:+ name table +:+ newline)
            else sql in
          let sql := sql +:+ ("-- Data for table: " +:+ name table +:+ newline) in
          let sql := sql +:+ ("-- Rows: " +:+ decimal (N.of_nat (length tableData))
                              +:+ newline +:+ newline) in
          obind (insertRows cts table tableData sql)
            (fun sql =>
               let sql := sql +:+ newline in
               insertTables cts data includeDropStatements rest sql)
      end
  end.

(** [generateInsertStatements(tables, data, includeDropStatements = false)] *)
Definition generateInsertStatements (cts : ColumnTypes) (tables : list TableInfo)
  (data : Dataset) (includeDropStatements : option bool) : outcome string :=
  insertTables cts data (default false includeDropStatements) tables "".

Section Generator.

Variable env : Env.
Variable config : SupabaseExtractorConfig.

(** The three steps of extractSchema inside its [try] block. *)
Fixpoint schemaEnums (rows : list (string * string)) (sql : string) : string :=
  match rows with
  | [] => sql
  | (type_name, create_enum) :: rest =>
      let sql := sql +:+ ("DROP TYPE IF EXISTS " +:+ type_name +:+ " CASCADE;" +:+ newline) in
      let sql := sql +:+ (create_enum +:+ newline +:+ newline) in
      schemaEnums rest sql
  end.

Fixpoint schemaTables (tables : list TableInfo) (sql : string) : M string :=
  match tables with
  | [] => ret sql
  | table :: rest =>
      let! rows := pgQuery (CreateTableQuery (schema table) (name table))
                     (fun tr => pg_create_table env tr (schema table) (name table)) in
      match rows with
      | create_statement :: _ =>
          let sql := sql +:+ ("-- Table: " +:+ schema table +:+ "." +:+ name table +:+ newline) in
          let sql := sql +:+ (create_statement +:+ newline +:+ newline) in
          schemaTables rest sql
      | [] => schemaTables rest sql
      end
  end.

Fixpoint schemaIndexes (rows : list string) (sql : string) : string :=
  match rows with
  | [] => sql
  | indexdef :: rest => schemaIndexes rest (sql +:+ (indexdef +:+ ";" +:+ newline))
  end.

Definition extractSchema (tables : list TableInfo) : M string :=
  let sql := "-- Database Schema" +:+ newline +:+ newline in
  try_finally
    (let! _ := pgConnect env config in
     let! enumRows := pgQuery EnumQuery (pg_enums env) in
     let sql :=
       match enumRows with
       | [] => sql
       | _ => schemaEnums enumRows (sql +:+ ("-- Enum Types" +:+ newline +:+ newline))
       end in
     let! sql := schemaTables tables sql in
     let! indexRows := pgQuery IndexQuery (pg_indexes env) in
     let sql :=
       match indexRows with
       | [] => sql
       | _ => schemaIndexes indexRows (sql +:+ ("-- Indexes" +:+ newline +:+ newline))
                +:+ newline
       end in
     ret sql)
    (pgEnd env).

Definition generateReconstructionSQL (tables : list TableInfo) (data : Dataset)
  : M string :=
  let sql := "-- Database Reconstruction Script" +:+ newline in
  let! t := now env in
  let sql := sql +:+ ("-- Generated: " +:+ isoString t +:+ newline +:+ newline) in
  let sql := sql +:+
    ("-- Note: The following session_replication_role commands require superuser privileges"
     +:+ newline) in
  let sql := sql +:+
    ("-- and have been commented out. Uncomment if you have appropriate permissions."
     +:+ newline) in
  let sql := sql +:+ ("-- SET session_replication_role = replica;" +:+ newline +:+ newline) in
  let! sql :=
    if hasDatabaseUrl config then
      let! schemaSQL := extractSchema tables in
      ret (sql +:+ schemaSQL)
    else
      let sql := sql +:+ ("-- Note: Schema extraction requires DATABASE_URL to be set."
                          +:+ newline) in
      ret (sql +:+ ("-- Only data INSERT statements are included below."
                    +:+ newline +:+ newline)) in
  let! insertSQL :=
    (fun st => (generateInsertStatements (columnTypes st) tables data None, st)) in
  let sql := sql +:+ insertSQL in
  let sql := sql +:+ (newline +:+ "-- Re-enable triggers and constraints" +:+ newline) in
  let sql := sql +:+ ("-- SET session_replication_role = DEFAULT;" +:+ newline) in
  ret sql.

End Generator.

(** ** The generated document, statement by statement

    The generators above build the text by successive appends, as the code
    does. The same generators are given here at the level of the pieces
    they append, each piece tagged with what it is; the text is recovered
    by [render] (lemmas [insertTables_render] and
    [generateReconstructionSQL_render]). *)

Inductive fragment : Type :=
| Comment (text : string)
| Blank
| DropTable (table : TableInfo)
| Insert (table : TableInfo) (columns values : list string)
| DropType (type_name : string)
| CatalogText (text : string)
| IndexDef (indexdef : string).

Definition renderFragment (f : fragment) : string :=
  match f with
  | Comment text => "-- " +:+ text +:+ newline
  | Blank => newline
  | DropTable table =>
      "DROP TABLE IF EXISTS " +:+ qualifiedName table +:+ " CASCADE;" +:+ newline
  | Insert table columns values =>
      "INSERT INTO " +:+ qualifiedName table +:+ " (" +:+
      join ", " (map quoteIdentifier columns) +:+
      ") VALUES (" +:+ join ", " values +:+ ");" +:+ newline
  | DropType type_name => "DROP TYPE IF EXISTS " +:+ type_name +:+ " CASCADE;" +:+ newline
  | CatalogText text => text +:+ newline
  | IndexDef indexdef => indexdef +:+ ";" +:+ newline
  end.

Fixpoint render (fs : list fragment) : string :=
  match fs with
  | [] => ""
  | f :: rest => renderFragment f +:+ render rest
  end.

Definition isDropTable (f : fragment) : bool :=
  match f with DropTable _ => true | _ => false end.

Definition isInsert (f : fragment) : bool :=
  match f with Insert _ _ _ => true | _ => false end.


Definition rowFragment (cts : ColumnTypes) (table : TableInfo) (r : row)
  : outcome fragment :=
  let columns := Object_keys r in
  omap (Insert table columns)
    (mapOutcome
       (fun col => formatValue cts (getProp r col) (Some (name table)) (Some col))
       columns).

(** What one iteration of the table loop appends. *)
Definition tableFragments (cts : ColumnTypes) (data : Dataset)
  (includeDropStatements : bool) (table : TableInfo) : outcome (list fragment) :=
  match data !! name table with
  | None | Some [] => Return [Comment ("No data for table: " +:+ name table); Blank]
  | Some tableData =>
      omap (fun inserts =>
              (if includeDropStatements
               then [DropTable table;
                     Comment ("Table: " +:+ schema table +:+ "." +:+ name table)]
               else [])
              ++ [Comment ("Data for table: " +:+ name table);
                  Comment ("Rows: " +:+ decimal (N.of_nat (length tableData)));
                  Blank]
              ++ inserts ++ [Blank])
        (mapOutcome (rowFragment cts table) tableData)
  end.

Definition insertFragments (cts : ColumnTypes) (tables : list TableInfo)
  (data : Dataset) (includeDropStatements : option bool) : outcome (list fragment) :=
  omap (@concat fragment)
    (mapOutcome (tableFragments cts data (default false includeDropStatements)) tables).

Definition enumFragments (rows : list (string * string)) : list fragment :=
  concat (map (fun r => [DropType (fst r); CatalogText (snd r); Blank]) rows).

Fixpoint schemaTableFragments (env : Env) (tables : list TableInfo)
  : M (list fragment) :=
  match tables with
  | [] => ret []
  | table :: rest =>
      let! rows := pgQuery (CreateTableQuery (schema table) (name table))
                     (fun tr => pg_create_table env tr (schema table) (name table)) in
      let! more := schemaTableFragments env rest in
      match rows with
      | create_statement :: _ =>
          ret (Comment ("Table: " +:+ schema table +:+ "." +:+ name table)
               :: CatalogText create_statement :: Blank :: more)
      | [] => ret more
      end
  end.

Definition schemaFragments (env : Env) (config : SupabaseExtractorConfig)
  (tables : list TableInfo) : M (list fragment) :=
  try_finally
    (let! _ := pgConnect env config in
     let! enumRows := pgQuery EnumQuery (pg_enums env) in
     let! tableFs := schemaTableFragments env tables in
     let! indexRows := pgQuery IndexQuery (pg_indexes env) in
     ret ([Comment "Database Schema"; Blank]
          ++ match enumRows with
             | [] => []
             | _ => [Comment "Enum Types"; Blank] ++ enumFragments enumRows
             end
          ++ tableFs
          ++ match indexRows with
             | [] => []
             | _ => [Comment "Indexes"; Blank] ++ map IndexDef indexRows ++ [Blank]
             end))
    (pgEnd env).

Definition reconstructionFragments (env : Env) (config : SupabaseExtractorConfig)
  (tables : list TableInfo) (data : Dataset) : M (list fragment) :=
  let! t := now env in
  let header :=
    [Comment "Database Reconstruction Script";
     Comment ("Generated: " +:+ isoString t);
     Blank;
     Comment "Note: The following session_replication_role commands require superuser privileges";
     Comment "and have been commented out. Uncomment if you have appropriate permissions.";
     Comment "SET session_replication_role = replica;";
     Blank] in
  let! schemaFs :=
    if hasDatabaseUrl config then schemaFragments env config tables
    else ret [Comment "Note: Schema extraction requires DATABASE_URL to be set.";
              Comment "Only data INSERT statements are included below.";
              Blank] in
  let! insertFs :=
    (fun st => (insertFragments (columnTypes st) tables data None, st)) in
  ret (header ++ schemaFs ++ insertFs
       ++ [Blank; Comment "Re-enable triggers and constraints";
           Comment "SET session_replication_role = DEFAULT;"]).

(** ** Reference notions used by the properties *)

(** Standard reading of a quoted SQL token delimited by [q]: after the
    opening delimiter, two delimiters in a row stand for one, a single
    delimiter closes the token and must end the text. Single quotes
    delimit string literals, double quotes delimit identifiers. *)
Fixpoint parseQuotedBody (q : ascii) (s : string) : option string :=
  match s with
  | EmptyString => None
  | String a rest =>
      if Ascii.eqb a q then
        match rest with
        | EmptyString => Some ""
        | String b rest' =>
            if Ascii.eqb b q then option_map (String q) (parseQuotedBody q rest')
            else None
        end
      else option_map (String a) (parseQuotedBody q rest)
  end.

Definition parseQuoted (q : ascii) (s : string) : option string :=
  match s with
  | EmptyString => None
  | String a body => if Ascii.eqb a q then parseQuotedBody q body else None
  end.

Definition parseLiteral : string -> option string := parseQuoted squote.
Definition parseIdentifier : string -> option string := parseQuoted dquote.

(** First and last characters of a text. *)
Definition firstChar (s : string) : option ascii :=
  match s with
  | EmptyString => None
  | String a _ => Some a
  end.

Fixpoint lastChar (s : string) : option ascii :=
  match s with
  | EmptyString => None
  | String a EmptyString => Some a
  | String _ rest => lastChar rest
  end.

Fixpoint countChar (c : ascii) (s : string) : nat :=
  match s with
  | EmptyString => 0
  | String a rest => (if Ascii.eqb a c then 1 else 0) + countChar c rest
  end.

(** The window [from, to] (both inclusive) of a table's rows, as the
    restricted API serves it. *)
Definition window (rows : list row) (from to : Z) : list row :=
  firstn (Z.to_nat (to - from + 1)) (skipn (Z.to_nat from) rows).

(** The restricted API serves [table] consistently with contents [rows]:
    whatever happened before, a range request answers with that window
    of the rows and no error. *)
Definition servesTable (env : Env) (table : string) (rows : list row) : Prop :=
  forall tr from to,
    sb_range env tr table from to = Return (Some (window rows from to), None).

(** The page requests of a paginated extraction: pages [first] to
    [first + count - 1]. *)
Fixpoint pageRequests (table : string) (first count : nat) : list call :=
  match count with
  | O => []
  | S n =>
      SelectRange table (Z.of_nat first * limit) (Z.of_nat first * limit + limit - 1)
      :: pageRequests table (S first) n
  end.

(** The contents of pages [first] to [first + count - 1]. *)
Fixpoint pages (rows : list row) (first count : nat) : list (list row) :=
  match count with
  | O => []
  | S n =>
      window rows (Z.of_nat first * limit) (Z.of_nat first * limit + limit - 1)
      :: pages rows (S first) n
  end.

(** ** Concrete scenarios

    Environments, configurations and data on which the properties below
    are exercised. *)

Module Scenario.

Definition usersTable : TableInfo := {| name := "users"; schema := "public" |}.
Definition ordersTable : TableInfo := {| name := "orders"; schema := "public" |}.
Definition tagsTable : TableInfo := {| name := "tags"; schema := "public" |}.

(** The numbers 1 and 2. *)
Definition one : value := VNumber (S754_finite false 4503599627370496 (-52)).
Definition two : value := VNumber (S754_finite false 4503599627370496 (-51)).

Definition ann : row := [("id", one); ("name", VString "Ann")].
Definition obrien : row := [("id", two); ("name", VString "O'Brien")].

Definition initial : state := {| columnTypes := ∅; calls := [] |}.

Definition restrictedConfig : SupabaseExtractorConfig :=
  {| supabaseUrl := "https://project.supabase.co"; supabaseKey := "key";
     databaseUrl := None; verbose := None |}.

Definition privilegedConfig : SupabaseExtractorConfig :=
  {| supabaseUrl := "https://project.supabase.co"; supabaseKey := "key";
     databaseUrl := Some "postgresql://postgres@db/postgres"; verbose := None |}.

(** A database holding users (two rows), orders (unreadable through the
    restricted API) and tags (empty, with a text[] column [labels]). *)
Definition healthy : Env :=
  {| pg_connect := fun _ _ => None;
     pg_end := fun _ => None;
     pg_tables := fun _ =>
       Return [("orders", "public"); ("tags", "public"); ("users", "public")];
     pg_columns := fun _ _ table =>
       Return (if String.eqb table "tags" then [("labels", "text[]")] else []);
     pg_enums := fun _ => Return [("mood", "CREATE TYPE mood AS ENUM ('sad', 'ok');")];
     pg_create_table := fun _ _ _ => Return [];
     pg_indexes := fun _ => Return [];
     sb_rpc := fun _ _ => Return (DataNothing, Some (Error "function not found"));
     sb_range := fun _ table from to =>
       if String.eqb table "orders"
       then Return (None, Some (Error "permission denied"))
       else if String.eqb table "users"
       then Return (Some (window [ann; obrien] from to), None)
       else Return (Some [], None);
     clock := fun _ => 1793619720123 |}.

(** The same database when the privileged connection is refused. *)
Definition unreachable : Env :=
  {| pg_connect := fun _ _ => Some (Error "connect ECONNREFUSED");
     pg_end := pg_end healthy;
     pg_tables := pg_tables healthy;
     pg_columns := pg_columns healthy;
     pg_enums := pg_enums healthy;
     pg_create_table := pg_create_table healthy;
     pg_indexes := pg_indexes healthy;
     sb_rpc := sb_rpc healthy;
     sb_range := sb_range healthy;
     clock := clock healthy |}.

Definition usersOnly : Dataset := {["users" := [ann; obrien]]}.

End Scenario.

(** ** Further notions: values from JSON, connection discipline, pages *)

(** Induction over values, through the elements of arrays and the
    property values of objects. *)
Section ValueInduction.

Variable P : value -> Prop.
Hypothesis HUndefined : P VUndefined.
Hypothesis HNull : P VNull.
Hypothesis HBoolean : forall b, P (VBoolean b).
Hypothesis HNumber : forall x, P (VNumber x).
Hypothesis HBigInt : forall z, P (VBigInt z).
Hypothesis HString : forall s, P (VString s).
Hypothesis HSymbol : forall d, P (VSymbol d).
Hypothesis HFunction : forall src, P (VFunction src).
Hypothesis HDate : forall t, P (VDate t).
Hypothesis HArray : forall items, Forall P items -> P (VArray items).
Hypothesis HObject : forall props, Forall (fun kv => P (snd kv)) props -> P (VObject props).

Fixpoint value_induction (v : value) : P v :=
  match v with
  | VUndefined => HUndefined
  | VNull => HNull
  | VBoolean b => HBoolean b
  | VNumber x => HNumber x
  | VBigInt z => HBigInt z
  | VString s => HString s
  | VSymbol d => HSymbol d
  | VFunction src => HFunction src
  | VDate t => HDate t
  | VArray items =>
      HArray items
        ((fix all (l : list value) : Forall P l :=
            match l with
            | [] => @List.Forall_nil _ P
            | x :: rest => @List.Forall_cons _ P x rest (value_induction x) (all rest)
            end) items)
  | VObject props =>
      HObject props
        ((fix all (l : list (string * value)) : Forall (fun kv => P (snd kv)) l :=
            match l with
            | [] => @List.Forall_nil _ (fun kv => P (snd kv))
            | kv :: rest =>
                @List.Forall_cons _ (fun kv => P (snd kv)) kv rest
                  (value_induction (snd kv)) (all rest)
            end) props)
  end.

End ValueInduction.

(** The values [JSON.parse] produces, which is what the restricted API
    delivers: null, booleans, numbers, strings, arrays and objects of
    such values. *)
Fixpoint isJSON (v : value) : bool :=
  match v with
  | VNull | VBoolean _ | VNumber _ | VString _ => true
  | VArray items =>
      (fix all (l : list value) : bool :=
         match l with
         | [] => true
         | x :: rest => isJSON x && all rest
         end) items
  | VObject props =>
      (fix all (l : list (string * value)) : bool :=
         match l with
         | [] => true
         | (_, x) :: rest => isJSON x && all rest
         end) props
  | VUndefined | VBigInt _ | VSymbol _ | VFunction _ | VDate _ => false
  end.



(** The discipline of the privileged connection, read off a trace: a
    connection is opened only when none is open, queried and released only
    while open, and no call to the restricted API or the clock is made
    while it is open. [pgRun opened l] is the status after the calls [l],
    or [None] when a call breaks the discipline. *)
Definition pgStep (opened : bool) (c : call) : option bool :=
  match c, opened with
  | PgConnect _, false => Some true
  | PgQuery _, true => Some true
  | PgEnd, true => Some false
  | (Rpc _ | SelectRange _ _ _ | ClockNow), false => Some false
  | _, _ => None
  end.

Fixpoint pgRun (opened : bool) (l : list call) : option bool :=
  match l with
  | [] => Some opened
  | c :: rest =>
      match pgStep opened c with
      | Some opened' => pgRun opened' rest
      | None => None
      end
  end.

Definition isSelectRange (table : string) (c : call) : bool :=
  match c with
  | SelectRange t _ _ => String.eqb t table
  | _ => false
  end.

Definition isPgQuery (c : call) : bool :=
  match c with PgQuery _ => true | _ => false end.

(** The rows delivered by [count] successive page requests from page
    [first] on, the trace before the first of them being [tr]: the data
    of a response, nothing for a response without data. *)
Fixpoint receivedPages (env : Env) (table : string) (tr : list call)
  (first count : nat) : list (list row) :=
  match count with
  | O => []
  | S n =>
      let from := Z.of_nat first * limit in
      let to := from + limit - 1 in
      match sb_range env tr table from to with
      | Return (Some page, None) => page
      | _ => []
      end
      :: receivedPages env table (tr ++ [SelectRange table from to]) (S first) n
  end.

(** Characters of a decimal number text. *)
Definition isNumberChar (a : ascii) : bool :=
  let n := N_of_ascii a in
  ((48 <=? n)%N && (n <=? 57)%N)
  || (n =? 46)%N || (n =? 101)%N || (n =? 43)%N || (n =? 45)%N.

Fixpoint allChars (p : ascii -> bool) (s : string) : bool :=
  match s with
  | EmptyString => true
  | String a rest => p a && allChars p rest
  end.

(** A state reached from another by calls that respect the discipline
    of the privileged connection and leave it released. *)
Definition extends (st st' : state) : Prop :=
  exists l, calls st' = calls st ++ l /\ pgRun false l = Some false.

(** The fixed parts of the reconstruction document: the header, with the
    time of generation, the notice that stands for the schema when there
    is no connection string, and the footer. *)
Definition documentHeader (t : Z) : string :=
  render [Comment "Database Reconstruction Script";
          Comment ("Generated: " +:+ isoString t);
          Blank;
          Comment "Note: The following session_replication_role commands require superuser privileges";
          Comment "and have been commented out. Uncomment if you have appropriate permissions.";
          Comment "SET session_replication_role = replica;";
          Blank].


Definition documentFooter : string :=
  render [Blank;
          Comment "Re-enable triggers and constraints";
          Comment "SET session_replication_role = DEFAULT;"].

(** The catalog queries of a successful schema extraction. *)
Definition schemaQueries (tables : list TableInfo) : list call :=
  [PgQuery EnumQuery]
  ++ map (fun table => PgQuery (CreateTableQuery (schema table) (name table))) tables
  ++ [PgQuery IndexQuery].

(** ** The command-line entry point (index.ts, function main)

    The version of main that writes the reconstruction script and the
    INSERT statements with DROP TABLE guards. The host gives the
    environment variables (after dotenv), the working directory, path
    joining and the file system; a file operation may depend on the
    operations that succeeded before it. Constructing the extractor (and
    its client) is taken to succeed. *)

Inductive fileOp : Type :=
| Mkdir (path : string)
| WriteFile (path content : string).

Record Host : Type := {
  SUPABASE_URL : option string;
  SUPABASE_SERVICE_ROLE_KEY : option string;
  DATABASE_URL : option string;
  cwd : string;
  path_join : string -> string -> string;
  fs_existsSync : list fileOp -> string -> bool;
  fs_mkdirSync : list fileOp -> string -> option error;
  fs_writeFileSync : list fileOp -> string -> string -> option error;
}.

(** How the process ends: [process.exit(code)], or the end of main. *)
Inductive ending : Type :=
| Exit (code : Z)
| Finished.

(** A run of main: its ending, the file operations that succeeded and
    the calls made to the clients. *)
Record run : Type := {
  status : ending;
  files : list fileOp;
  trace : list call;
}.

Definition isWriteFile (op : fileOp) : bool :=
  match op with WriteFile _ _ => true | Mkdir _ => false end.

Section Main.

Variable host : Host.
Variable env : Env.

Definition outputDir : string := path_join host (cwd host) "output".
Definition sqlFilePath : string := path_join host outputDir "database_reconstruction.sql".
Definition insertFilePath : string := path_join host outputDir "database_inserts.sql".

(** [fs.writeFileSync(path, content)] inside the try block: the rest of
    main on success, [process.exit(1)] from the catch block on failure. *)
Definition writeFile (path content : string) (ops : list fileOp) (tr : list call)
  (next : list fileOp -> option run) : option run :=
  match fs_writeFileSync host ops path content with
  | Some _ => Some {| status := Exit 1; files := ops; trace := tr |}
  | None => next (ops ++ [WriteFile path content])
  end.

(** The try block of main, from table discovery on. *)
Definition mainFrom (config : SupabaseExtractorConfig) (fuel : nat)
  (ops : list fileOp) : option run :=
  let failed st := Some {| status := Exit 1; files := ops; trace := calls st |} in
  match discoverTables env config {| columnTypes := ∅; calls := [] |} with
  | (Throw _, st) => failed st
  | (Return [], st) => Some {| status := Finished; files := ops; trace := calls st |}
  | (Return tables, st) =>
      match extractAllData env config fuel tables st with
      | None => None
      | Some (Throw _, st) => failed st
      | Some (Return extractedData, st) =>
          match generateReconstructionSQL env config tables extractedData st with
          | (Throw _, st) => failed st
          | (Return sqlScript, st) =>
              writeFile sqlFilePath sqlScript ops (calls st)
                (fun ops =>
                   match generateInsertStatements (columnTypes st) tables
                           extractedData (Some true) with
                   | Throw _ =>
                       Some {| status := Exit 1; files := ops; trace := calls st |}
                   | Return insertStatements =>
                       writeFile insertFilePath insertStatements ops (calls st)
                         (fun ops =>
                            Some {| status := Finished; files := ops;
                                    trace := calls st |})
                   end)
          end
      end
  end.

Definition main (fuel : nat) : option run :=
  let supabaseUrl := SUPABASE_URL host in
  let supabaseKey := SUPABASE_SERVICE_ROLE_KEY host in
  let databaseUrl_ := DATABASE_URL host in
  match supabaseUrl, supabaseKey with
  | Some url, Some key =>
      if negb (truthy url) || negb (truthy key)
      then Some {| status := Exit 1; files := []; trace := [] |}
      else
        let config := {| supabaseUrl := url; supabaseKey := key;
                         databaseUrl := databaseUrl_; verbose := None |} in
        if fs_existsSync host [] outputDir then mainFrom config fuel []
        else
          match fs_mkdirSync host [] outputDir with
          | Some _ => Some {| status := Exit 1; files := []; trace := [] |}
          | None => mainFrom config fuel [Mkdir outputDir]
          end
  | _, _ => Some {| status := Exit 1; files := []; trace := [] |}
  end.

End Main.

(** Further scenarios. *)
Module Cases.

(** A service that answers every range request with the same full page. *)
Definition fullPage : list row := repeat Scenario.ann 1000.

Definition endless : Env :=
  {| pg_connect := pg_connect Scenario.healthy;
     pg_end := pg_end Scenario.healthy;
     pg_tables := pg_tables Scenario.healthy;
     pg_columns := pg_columns Scenario.healthy;
     pg_enums := pg_enums Scenario.healthy;
     pg_create_table := pg_create_table Scenario.healthy;
     pg_indexes := pg_indexes Scenario.healthy;
     sb_rpc := sb_rpc Scenario.healthy;
     sb_range := fun _ _ _ _ => Return (Some fullPage, None);
     clock := clock Scenario.healthy |}.

(** The restricted API with the discovery procedure installed. *)
Definition withRpc (elements : list (option (string * option string))) : Env :=
  {| pg_connect := pg_connect Scenario.healthy;
     pg_end := pg_end Scenario.healthy;
     pg_tables := pg_tables Scenario.healthy;
     pg_columns := pg_columns Scenario.healthy;
     pg_enums := pg_enums Scenario.healthy;
     pg_create_table := pg_create_table Scenario.healthy;
     pg_indexes := pg_indexes Scenario.healthy;
     sb_rpc := fun _ _ => Return (DataArray elements, None);
     sb_range := sb_range Scenario.healthy;
     clock := clock Scenario.healthy |}.

Definition posix : Host :=
  {| SUPABASE_URL := Some "https://project.supabase.co";
     SUPABASE_SERVICE_ROLE_KEY := Some "key";
     DATABASE_URL := Some "postgresql://postgres@db/postgres";
     cwd := "/work";
     path_join := fun a b => a +:+ "/" +:+ b;
     fs_existsSync := fun _ _ => false;
     fs_mkdirSync := fun _ _ => None;
     fs_writeFileSync := fun _ _ _ => None |}.

Definition posixRestricted : Host :=
  {| SUPABASE_URL := SUPABASE_URL posix;
     SUPABASE_SERVICE_ROLE_KEY := SUPABASE_SERVICE_ROLE_KEY posix;
     DATABASE_URL := None;
     cwd := cwd posix;
     path_join := path_join posix;
     fs_existsSync := fs_existsSync posix;
     fs_mkdirSync := fs_mkdirSync posix;
     fs_writeFileSync := fs_writeFileSync posix |}.

End Cases.

(** ** Properties *)

(** *** Strings *)

Lemma append_nil_l (s : string) : "" +:+ s = s.
Proof. reflexivity. Qed.

Lemma append_cons (a : ascii) (s t : string) : String a s +:+ t = String a (s +:+ t).
Proof. reflexivity. Qed.

Lemma append_nil_r (s : string) : s +:+ "" = s.
Proof. induction s as [|a s IH]; [reflexivity|]. rewrite append_cons, IH. reflexivity. Qed.

Lemma append_assoc (s t u : string) : (s +:+ t) +:+ u = s +:+ (t +:+ u).
Proof.
  induction s as [|a s IH]; [reflexivity|].
  rewrite !append_cons, IH. reflexivity.
Qed.



Lemma firstChar_cons (a : ascii) (s : string) : firstChar (String a s) = Some a.
Proof. reflexivity. Qed.

Lemma lastChar_snoc (s : string) (a : ascii) : lastChar (s +:+ String a "") = Some a.
Proof.
  induction s as [|b s IH]; [reflexivity|].
  rewrite append_cons. simpl. rewrite IH.
  destruct (s +:+ String a "") eqn:E; [|reflexivity].
  destruct s; discriminate E.
Qed.

Lemma countChar_app (c : ascii) (s t : string) :
  countChar c (s +:+ t) = (countChar c s + countChar c t)%nat.
Proof.
  induction s as [|a s IH]; [reflexivity|].
  rewrite append_cons. simpl. rewrite IH. lia.
Qed.

(** Doubling a delimiter doubles its number of occurrences. *)
Lemma countChar_replaceAll (q : ascii) (s : string) :
  countChar q (replaceAll q (String q (String q "")) s) = (2 * countChar q s)%nat.
Proof.
  induction s as [|a s IH]; [reflexivity|].
  simpl. destruct (Ascii.eqb a q) eqn:E.
  - rewrite ?append_cons, ?append_nil_l. simpl. rewrite Ascii.eqb_refl, IH. lia.
  - simpl. rewrite E, IH. lia.
Qed.

(** Reading a quoted token undoes the doubling of its delimiter. *)
Lemma parseQuotedBody_replaceAll (q : ascii) (s : string) :
  parseQuotedBody q (replaceAll q (String q (String q "")) s +:+ String q "") = Some s.
Proof.
  induction s as [|a s IH].
  - simpl. rewrite ?append_nil_l. simpl. rewrite Ascii.eqb_refl. reflexivity.
  - simpl. destruct (Ascii.eqb a q) eqn:E.
    + apply Ascii.eqb_eq in E. subst a.
      rewrite ?append_cons, ?append_nil_l. simpl.
      rewrite !Ascii.eqb_refl, IH. reflexivity.
    + rewrite append_cons. simpl. rewrite E, IH. reflexivity.
Qed.

Lemma parseQuoted_replaceAll (q : ascii) (s : string) :
  parseQuoted q (String q (replaceAll q (String q (String q "")) s +:+ String q "")) = Some s.
Proof. simpl. rewrite Ascii.eqb_refl. apply parseQuotedBody_replaceAll. Qed.

(** *** Decimal texts are not empty *)





(** *** quoteIdentifier *)

(** C8. For every identifier, [quoteIdentifier] returns a text that
    begins and ends with a double quote, in which every double quote of
    the identifier appears doubled: reading the result as a quoted
    identifier gives the identifier back, and the result holds two double
    quotes per double quote of the identifier plus the two delimiters. The
    function is total. *)
Theorem quoteIdentifier_quotes (identifier : string) :
  firstChar (quoteIdentifier identifier) = Some dquote /\
  lastChar (quoteIdentifier identifier) = Some dquote /\
  parseIdentifier (quoteIdentifier identifier) = Some identifier /\
  countChar dquote (quoteIdentifier identifier)
    = (2 * countChar dquote identifier + 2)%nat.
Proof.
  unfold quoteIdentifier. repeat split.
  - rewrite <- append_cons. apply lastChar_snoc.
  - apply parseQuoted_replaceAll.
  - cbn [countChar]. rewrite Ascii.eqb_refl, countChar_app, countChar_replaceAll.
    cbn [countChar]. rewrite Ascii.eqb_refl. lia.
Qed.

(** *** formatValue *)

(** C7. For every string s, [formatValue] gives a single-quoted literal
    which standard single-quote literal parsing reads back as exactly s. *)
Theorem formatValue_string_roundtrip (cts : ColumnTypes) (s : string)
  (tableName columnName : option string) :
  exists literal,
    formatValue cts (VString s) tableName columnName = Return literal /\
    firstChar literal = Some squote /\
    lastChar literal = Some squote /\
    parseLiteral literal = Some s.
Proof.
  exists (quoteLiteral s). unfold quoteLiteral. repeat split.
  - rewrite <- append_cons. apply lastChar_snoc.
  - apply parseQuoted_replaceAll.
Qed.


Lemma mapOutcome_quoteLiteral_strings (l : list string) :
  mapOutcome (fun item => omap quoteLiteral (String_ item)) (map VString l)
  = Return (map quoteLiteral l).
Proof.
  induction l as [|s l IH]; [reflexivity|].
  simpl. rewrite IH. reflexivity.
Qed.

(** In an array-typed column, an array of strings is rendered as an
    ARRAY constructor over the quoted elements, cast to the column type. *)
Lemma formatValue_array_column (cts : ColumnTypes) (types : gmap string string)
  (tableName columnName columnType : string) (items : list string) :
  tableName <> "" -> columnName <> "" ->
  cts !! tableName = Some types ->
  types !! columnName = Some columnType ->
  endsWith columnType "[]" = true ->
  formatValue cts (VArray (map VString items)) (Some tableName) (Some columnName)
  = Return ("ARRAY[" +:+ join "," (map quoteLiteral items) +:+ "]::" +:+ columnType).
Proof.
  intros Ht Hc Hcts Htypes Hends.
  unfold formatValue, lookupColumnType.
  destruct tableName as [|a t]; [congruence|].
  destruct columnName as [|b c]; [congruence|].
  cbn [truthy negb]. rewrite Hcts, Htypes, Hends.
  rewrite mapOutcome_quoteLiteral_strings. reflexivity.
Qed.

(** C3. When the types fetched by [fetchColumnTypes] for a table, as
    stored in the column-type map by the prefetch of extractAllData, give
    text[] for a column, [formatValue] renders the array value
    ["a","b"] of that column as ARRAY['a','b']::text[]. *)
Theorem formatValue_text_array (env : Env) (config : SupabaseExtractorConfig)
  (table : TableInfo) (columnName : string) (st st' : state)
  (types : gmap string string) :
  name table <> "" -> columnName <> "" ->
  fetchColumnTypes env config (name table) (Some (schema table)) st
    = (Return types, st') ->
  types !! columnName = Some "text[]" ->
  formatValue (columnTypes (prefetchColumnTypes env config [table] st))
    (VArray [VString "a"; VString "b"]) (Some (name table)) (Some columnName)
  = Return "ARRAY['a','b']::text[]".
Proof.
  intros Ht Hc Hfetch Htypes.
  cbn [prefetchColumnTypes]. rewrite Hfetch.
  apply (formatValue_array_column _ types (name table) columnName "text[]" ["a"; "b"]);
    auto.
  cbn [set_columnTypes columnTypes]. apply lookup_insert_eq.
Qed.

Lemma formatValue_text_array_witness :
  formatValue
    (columnTypes (prefetchColumnTypes Scenario.healthy Scenario.privilegedConfig
                    [Scenario.tagsTable] Scenario.initial))
    (VArray [VString "a"; VString "b"]) (Some "tags") (Some "labels")
  = Return "ARRAY['a','b']::text[]".
Proof.
  apply (formatValue_text_array Scenario.healthy Scenario.privilegedConfig
           Scenario.tagsTable "labels" Scenario.initial
           (snd (fetchColumnTypes Scenario.healthy Scenario.privilegedConfig
                   "tags" (Some "public") Scenario.initial))
           (<["labels" := "text[]"]> ∅)).
  - discriminate.
  - discriminate.
  - reflexivity.
  - reflexivity.
Defined.

(** C5. [formatValue] is not total: on an invalid Date (time value NaN)
    the conversion to ISO text raises a RangeError, which nothing
    catches. *)
Theorem formatValue_invalid_date_throws (cts : ColumnTypes)
  (tableName columnName : option string) :
  formatValue cts (VDate None) tableName columnName
  = Throw (RangeError "Invalid time value").
Proof. reflexivity. Qed.



(** *** Table discovery *)







(** *** Paginated extraction *)

Lemma window_page (rows : list row) (j : nat) :
  window rows (Z.of_nat j * limit) (Z.of_nat j * limit + limit - 1)
  = firstn 1000 (skipn (j * 1000) rows).
Proof.
  unfold window, limit.
  replace (Z.to_nat (Z.of_nat j * 1000 + 1000 - 1 - Z.of_nat j * 1000 + 1)) with 1000%nat by lia.
  replace (Z.to_nat (Z.of_nat j * 1000)) with (j * 1000)%nat by lia.
  reflexivity.
Qed.

Lemma window_nil (from to : Z) : window [] from to = [].
Proof. unfold window. rewrite drop_nil. apply take_nil. Qed.

(** The pages from page [j] on make up the rows from row [j * 1000] on. *)
Lemma concat_pages (rows : list row) (count j : nat) :
  (length rows <= (j + count) * 1000)%nat ->
  concat (pages rows j count) = skipn (j * 1000) rows.
Proof.
  revert j. induction count as [|count IH]; intros j Hlen; cbn [pages concat].
  - symmetry. apply drop_ge. lia.
  - rewrite IH by lia. rewrite window_page.
    replace (S j * 1000)%nat with (j * 1000 + 1000)%nat by lia.
    rewrite <- drop_drop. apply firstn_skipn.
Qed.

Lemma length_pageRequests (table : string) (first count : nat) :
  length (pageRequests table first count) = count.
Proof.
  revert first. induction count as [|count IH]; intros first; [reflexivity|].
  cbn [pageRequests length]. rewrite IH. reflexivity.
Qed.

(** Running the loop from page [j], with the rows of the pages before it
    collected, against a service that holds [k * 1000 + r] rows. *)
Lemma extractTableData_loop_pages (env : Env) (table : string) (rows : list row)
  (k r : nat) :
  servesTable env table rows ->
  length rows = (k * 1000 + r)%nat -> (r < 1000)%nat ->
  forall (d j fuel : nat) (st : state),
    (j + d = k)%nat -> (d < fuel)%nat ->
    extractTableData_loop env fuel table (firstn (j * 1000) rows) (Z.of_nat j * limit) st
    = Some (Return rows,
            {| columnTypes := columnTypes st;
               calls := calls st ++ pageRequests table j (S d) |}).
Proof.
  intros Hserve Hlen Hr.
  induction d as [|d IH]; intros j fuel st Hj Hfuel;
    (destruct fuel as [|fuel]; [lia|]);
    cbn [extractTableData_loop]; unfold selectRange;
    rewrite Hserve, window_page.
  - (* the last page: r rows *)
    assert (length (skipn (j * 1000) rows) = r) as Hrest
      by (rewrite length_drop; lia).
    rewrite (take_ge (skipn (j * 1000) rows)) by lia.
    destruct (skipn (j * 1000) rows) as [|x rest] eqn:Hdrop.
    + rewrite <- (firstn_skipn (j * 1000) rows) at 2.
      rewrite Hdrop, app_nil_r. reflexivity.
    + cbv beta iota zeta.
      assert ((Z.of_nat (length (x :: rest)) =? limit) = false) as ->
        by (apply Z.eqb_neq; unfold limit; lia).
      rewrite <- Hdrop, firstn_skipn. reflexivity.
  - (* a full page, and more to fetch *)
    assert (length (firstn 1000 (skipn (j * 1000) rows)) = 1000%nat) as Hfull
      by (rewrite length_take, length_drop; lia).
    destruct (firstn 1000 (skipn (j * 1000) rows)) as [|x page] eqn:Hpage;
      [discriminate Hfull|].
    cbv beta iota zeta.
    assert ((Z.of_nat (length (x :: page)) =? limit) = true) as ->
      by (apply Z.eqb_eq; unfold limit; lia).
    rewrite <- Hpage, take_take_drop.
    set (st1 := record_call _ st).
    replace (Z.of_nat j * limit + limit) with (Z.of_nat (S j) * limit) by lia.
    replace (j * 1000 + 1000)%nat with (S j * 1000)%nat by lia.
    rewrite IH by lia. subst st1.
    cbn [record_call calls columnTypes pageRequests].
    rewrite <- app_assoc. reflexivity.
Qed.

(** C1, as the code has it. For a table of exactly k * 1000 + r rows
    (r < 1000) served consistently by the restricted API,
    [extractTableData] issues exactly k + 1 page requests, also when
    r = 0 (the last page, of r rows, is the one that stops the loop), and
    returns the k * 1000 + r rows, the concatenation of the pages in fetch
    order. *)
Theorem extractTableData_pagination (env : Env) (table : string) (rows : list row)
  (k r fuel : nat) (st : state) :
  servesTable env table rows ->
  length rows = (k * 1000 + r)%nat -> (r < 1000)%nat ->
  (k < fuel)%nat ->
  extractTableData env fuel table st
  = Some (Return rows,
          {| columnTypes := columnTypes st;
             calls := calls st ++ pageRequests table 0 (S k) |}) /\
  length (pageRequests table 0 (S k)) = S k /\
  rows = concat (pages rows 0 (S k)).
Proof.
  intros Hserve Hlen Hr Hfuel. repeat split.
  - unfold extractTableData.
    apply (extractTableData_loop_pages env table rows k r Hserve Hlen Hr k 0%nat fuel st);
      lia.
  - apply length_pageRequests.
  - rewrite concat_pages by lia. reflexivity.
Qed.

Lemma healthy_serves_users :
  servesTable Scenario.healthy "users" [Scenario.ann; Scenario.obrien].
Proof. intros tr from to. reflexivity. Qed.

Lemma healthy_serves_tags : servesTable Scenario.healthy "tags" [].
Proof. intros tr from to. rewrite window_nil. reflexivity. Qed.

Lemma extractTableData_pagination_witness :
  extractTableData Scenario.healthy 1 "users" Scenario.initial
  = Some (Return [Scenario.ann; Scenario.obrien],
          {| columnTypes := ∅;
             calls := [] ++ pageRequests "users" 0 1 |}) /\
  length (pageRequests "users" 0 1) = 1%nat /\
  [Scenario.ann; Scenario.obrien]
  = concat (pages [Scenario.ann; Scenario.obrien] 0 1).
Proof.
  apply (extractTableData_pagination Scenario.healthy "users"
           [Scenario.ann; Scenario.obrien] 0 2 1 Scenario.initial).
  - exact healthy_serves_users.
  - reflexivity.
  - lia.
  - lia.
Defined.

(** C1 as stated fails for r = 0: an empty table (k = 0, r = 0) still
    costs one page request, not k = 0 of them. *)
Lemma extractTableData_empty_table_one_request :
  ~ (forall env table rows k fuel st result st',
        servesTable env table rows ->
        length rows = (k * 1000)%nat ->
        extractTableData env fuel table st = Some (result, st') ->
        length (calls st') = (length (calls st) + k)%nat).
Proof.
  intros Hclaim.
  specialize (Hclaim Scenario.healthy "tags" [] 0%nat 1%nat Scenario.initial
                (Return [])
                {| columnTypes := ∅; calls := [SelectRange "tags" 0 999] |}
                healthy_serves_tags eq_refl eq_refl).
  discriminate Hclaim.
Qed.

(** *** Per-table fault isolation *)

Section FaultIsolation.

Variable env : Env.
Variable fuel : nat.

(** The table loop only adds to the mapping it starts from. *)
Lemma extractAllData_loop_acc (tables : list TableInfo) (allData : Dataset) (st : state) :
  extractAllData_loop env fuel tables allData st
  = match extractAllData_loop env fuel tables ∅ st with
    | Some (Return m, st') => Some (Return (m ∪ allData), st')
    | other => other
    end.
Proof.
  revert allData st. induction tables as [|table rest IH]; intros allData st.
  - cbn [extractAllData_loop]. rewrite (left_id_L ∅ (∪)). reflexivity.
  - cbn [extractAllData_loop].
    destruct (extractTableData env fuel (name table) st) as [[[data|e] st']|];
      [| |reflexivity].
    + rewrite (IH (<[name table := data]> allData)), (IH (<[name table := data]> ∅)).
      destruct (extractAllData_loop env fuel rest ∅ st') as [[[m|e'] st'']|]; try reflexivity.
      rewrite insert_empty, (insert_union_singleton_l allData), (assoc_L (∪)).
      reflexivity.
    + rewrite (IH (<[name table := []]> allData)), (IH (<[name table := []]> ∅)).
      destruct (extractAllData_loop env fuel rest ∅ st') as [[[m|e'] st'']|]; try reflexivity.
      rewrite insert_empty, (insert_union_singleton_l allData), (assoc_L (∪)).
      reflexivity.
Qed.

(** The table loop never throws. *)
Lemma extractAllData_loop_never_throws (tables : list TableInfo) (allData : Dataset)
  (st : state) (e : error) (st' : state) :
  extractAllData_loop env fuel tables allData st <> Some (Throw e, st').
Proof.
  revert allData st. induction tables as [|table rest IH]; intros allData st.
  - discriminate.
  - cbn [extractAllData_loop].
    destruct (extractTableData env fuel (name table) st) as [[[data|e0] st0]|];
      [apply IH|apply IH|discriminate].
Qed.

(** The loop over a list in two parts. *)
Lemma extractAllData_loop_app (before after : list TableInfo) (allData : Dataset)
  (st : state) :
  extractAllData_loop env fuel (before ++ after) allData st
  = match extractAllData_loop env fuel before allData st with
    | Some (Return m, st') => extractAllData_loop env fuel after m st'
    | other => other
    end.
Proof.
  revert allData st. induction before as [|table rest IH]; intros allData st.
  - reflexivity.
  - cbn [app extractAllData_loop].
    destruct (extractTableData env fuel (name table) st) as [[[data|e] st']|];
      [apply IH|apply IH|reflexivity].
Qed.

(** The mapping built from the empty one has exactly the names of the
    tables as keys. *)
Lemma extractAllData_loop_keys (tables : list TableInfo) (st st' : state) (m : Dataset)
  (n : string) :
  extractAllData_loop env fuel tables ∅ st = Some (Return m, st') ->
  is_Some (m !! n) <-> n ∈ map name tables.
Proof.
  revert st m. induction tables as [|table rest IH]; intros st m.
  - intros [= <-]. rewrite lookup_empty. cbn [map]. rewrite elem_of_nil.
    split; [intros [x Hx]; discriminate|tauto].
  - cbn [extractAllData_loop map]. rewrite elem_of_cons.
    assert (forall data st1,
              extractAllData_loop env fuel rest (<[name table := data]> ∅) st1
              = Some (Return m, st') ->
              is_Some (m !! n) <-> n = name table \/ n ∈ map name rest) as Hstep.
    { intros data st1. rewrite extractAllData_loop_acc.
      destruct (extractAllData_loop env fuel rest ∅ st1) as [[[m'|e] st'']|] eqn:Hrest;
        try discriminate.
      intros [= <- <-]. rewrite <- (IH st1 m' Hrest).
      rewrite lookup_union_is_Some, lookup_insert_is_Some', lookup_empty.
      split.
      - intros [H|[H|H]]; [right; exact H|left; congruence|destruct H; discriminate].
      - intros [H|H]; [right; left; congruence|left; exact H]. }
    destruct (extractTableData env fuel (name table) st) as [[[data|e] st1]|];
      [apply Hstep|apply Hstep|discriminate].
Qed.

End FaultIsolation.

(** C4. Let the extraction of table [failing] throw, on a run of
    extractAllData over the tables [before ++ failing :: after]. Then
    extractAllData does not throw; the mapping it returns holds the
    datasets [m1] of the tables before and [m3] of the tables after,
    exactly as their own extraction produced them, and the empty sequence
    for the failing table (a later table of the same name takes over its
    entry, since the mapping is keyed by name). *)
Theorem extractAllData_fault_isolation (env : Env) (config : SupabaseExtractorConfig)
  (fuel : nat) (before after : list TableInfo) (failing : TableInfo)
  (st st1 st2 st3 : state) (m1 m3 : Dataset) (e : error) :
  extractAllData_loop env fuel before ∅
    (prefetchIfPrivileged env config (before ++ failing :: after) st)
    = Some (Return m1, st1) ->
  extractTableData env fuel (name failing) st1 = Some (Throw e, st2) ->
  extractAllData_loop env fuel after ∅ st2 = Some (Return m3, st3) ->
  exists allData,
    extractAllData env config fuel (before ++ failing :: after) st
      = Some (Return allData, st3) /\
    (forall table, table ∈ before ++ failing :: after ->
                   is_Some (allData !! name table)) /\
    (forall n, n ∈ map name after -> allData !! n = m3 !! n) /\
    (name failing ∉ map name after -> allData !! name failing = Some []) /\
    (forall n, n ∉ map name after -> n <> name failing -> allData !! n = m1 !! n).
Proof.
  intros Hbefore Hfail Hafter.
  set (st0 := prefetchIfPrivileged env config (before ++ failing :: after) st) in *.
  exists (m3 ∪ <[name failing := []]> m1).
  assert (forall n, n ∉ map name after -> m3 !! n = None) as Hout.
  { intros n Hn. apply eq_None_not_Some. intros Hsome. apply Hn.
    apply (extractAllData_loop_keys env fuel after st2 st3 m3 n Hafter), Hsome. }
  split; [|split; [|split; [|split]]].
  - unfold extractAllData. fold st0.
    rewrite extractAllData_loop_app, Hbefore. cbn [extractAllData_loop].
    rewrite Hfail, extractAllData_loop_acc, Hafter. reflexivity.
  - intros table Hin. apply lookup_union_is_Some.
    rewrite elem_of_app, elem_of_cons in Hin.
    destruct Hin as [Hin|[->|Hin]].
    + right. apply lookup_insert_is_Some'. right.
      apply (extractAllData_loop_keys env fuel before st0 st1 m1 _ Hbefore).
      apply list_elem_of_fmap_2, Hin.
    + right. apply lookup_insert_is_Some'. left. reflexivity.
    + left. apply (extractAllData_loop_keys env fuel after st2 st3 m3 _ Hafter).
      apply list_elem_of_fmap_2, Hin.
  - intros n Hn.
    apply (extractAllData_loop_keys env fuel after st2 st3 m3 n Hafter) in Hn
      as [rows Hrows].
    rewrite (lookup_union_l' _ _ _ (ltac:(rewrite Hrows; eauto))). reflexivity.
  - intros Hn. rewrite lookup_union_r by (apply Hout, Hn). apply lookup_insert_eq.
  - intros n Hn Hne. rewrite lookup_union_r by (apply Hout, Hn).
    apply lookup_insert_ne. congruence.
Qed.

(** extractAllData never throws. *)
Lemma extractAllData_never_throws (env : Env) (config : SupabaseExtractorConfig)
  (fuel : nat) (tables : list TableInfo) (st : state) (e : error) (st' : state) :
  extractAllData env config fuel tables st <> Some (Throw e, st').
Proof. apply extractAllData_loop_never_throws. Qed.

Lemma extractAllData_fault_isolation_witness :
  exists allData st',
    extractAllData Scenario.healthy Scenario.privilegedConfig 1
      [Scenario.usersTable; Scenario.ordersTable; Scenario.tagsTable] Scenario.initial
      = Some (Return allData, st') /\
    allData !! "users" = Some [Scenario.ann; Scenario.obrien] /\
    allData !! "orders" = Some [] /\
    allData !! "tags" = Some [].
Proof.
  edestruct (extractAllData_fault_isolation Scenario.healthy Scenario.privilegedConfig 1
               [Scenario.usersTable] [Scenario.tagsTable] Scenario.ordersTable
               Scenario.initial)
    as (allData & Hrun & _ & Hafter & Hfailing & Hbefore).
  - reflexivity.
  - reflexivity.
  - reflexivity.
  - exists allData. eexists. split; [exact Hrun|]. split; [|split].
    + rewrite Hbefore; [reflexivity| |discriminate].
      cbn [map Scenario.tagsTable name]. rewrite list_elem_of_singleton. discriminate.
    + apply Hfailing.
      cbn [map Scenario.tagsTable name Scenario.ordersTable].
      rewrite list_elem_of_singleton. discriminate.
    + rewrite Hafter; [reflexivity|].
      cbn [map Scenario.tagsTable name]. apply list_elem_of_singleton. reflexivity.
Defined.

(** *** The generated text and its fragments *)

Ltac append_normalize := rewrite ?append_assoc, ?append_nil_r; reflexivity.

Lemma render_app (fs gs : list fragment) : render (fs ++ gs) = render fs +:+ render gs.
Proof.
  induction fs as [|f fs IH]; [reflexivity|].
  cbn [app render]. rewrite IH, append_assoc. reflexivity.
Qed.

Lemma mapOutcome_app {A B} (f : A -> outcome B) (l1 l2 : list A) :
  mapOutcome f (l1 ++ l2)
  = obind (mapOutcome f l1) (fun ys1 => omap (app ys1) (mapOutcome f l2)).
Proof.
  induction l1 as [|x l1 IH]; cbn [app mapOutcome].
  - cbn [obind]. destruct (mapOutcome f l2); reflexivity.
  - rewrite IH. destruct (f x) as [y|e]; [|reflexivity]. cbn [obind].
    destruct (mapOutcome f l1) as [ys1|e]; [|reflexivity]. cbn [obind omap].
    destruct (mapOutcome f l2); reflexivity.
Qed.

Lemma mapOutcome_Forall {A B} (f : A -> outcome B) (P : B -> Prop) (l : list A)
  (ys : list B) :
  (forall x y, f x = Return y -> P y) ->
  mapOutcome f l = Return ys -> Forall P ys.
Proof.
  intros Hf. revert ys. induction l as [|x l IH]; intros ys; cbn [mapOutcome].
  - intros [= <-]. constructor.
  - destruct (f x) as [y|e] eqn:Hx; [|discriminate]. cbn [obind].
    destruct (mapOutcome f l) as [ys'|e]; [|discriminate]. cbn [omap obind].
    intros [= <-]. constructor; [eapply Hf, Hx|apply IH; reflexivity].
Qed.

Lemma insertRows_render (cts : ColumnTypes) (table : TableInfo) (tableData : list row)
  (sql : string) :
  insertRows cts table tableData sql
  = omap (fun fs => sql +:+ render fs) (mapOutcome (rowFragment cts table) tableData).
Proof.
  revert sql. induction tableData as [|r rest IH]; intros sql.
  - cbn [insertRows mapOutcome omap obind render]. rewrite append_nil_r. reflexivity.
  - cbn [insertRows mapOutcome]. unfold rowFragment at 1.
    destruct (mapOutcome _ (Object_keys r)) as [values|e]; [|reflexivity].
    cbn [omap obind]. rewrite IH.
    destruct (mapOutcome (rowFragment cts table) rest) as [fs|e]; [|reflexivity].
    cbn [omap obind render renderFragment]. f_equal. append_normalize.
Qed.

(** One iteration of the table loop appends the rendering of the table's
    fragments. *)
Lemma insertTables_step (cts : ColumnTypes) (data : Dataset) (flag : bool)
  (table : TableInfo) (rest : list TableInfo) (sql : string) :
  insertTables cts data flag (table :: rest) sql
  = obind (tableFragments cts data flag table)
      (fun fs => insertTables cts data flag rest (sql +:+ render fs)).
Proof.
  cbn [insertTables]. unfold tableFragments.
  destruct (data !! name table) as [[|r tableData]|].
  - cbn [obind render renderFragment]. f_equal. append_normalize.
  - rewrite insertRows_render.
    destruct (mapOutcome (rowFragment cts table) (r :: tableData)) as [fs|e];
      [|reflexivity].
    cbn [omap obind]. f_equal.
    destruct flag; rewrite !render_app; cbn [render renderFragment app]; append_normalize.
  - cbn [obind render renderFragment]. f_equal. append_normalize.
Qed.

Lemma insertTables_render (cts : ColumnTypes) (data : Dataset) (flag : bool)
  (tables : list TableInfo) (sql : string) :
  insertTables cts data flag tables sql
  = omap (fun fss => sql +:+ render (concat fss))
      (mapOutcome (tableFragments cts data flag) tables).
Proof.
  revert sql. induction tables as [|table rest IH]; intros sql.
  - cbn [insertTables mapOutcome omap obind concat render].
    rewrite append_nil_r. reflexivity.
  - rewrite insertTables_step. cbn [mapOutcome].
    destruct (tableFragments cts data flag table) as [fs|e]; [|reflexivity].
    cbn [obind]. rewrite IH.
    destruct (mapOutcome (tableFragments cts data flag) rest) as [fss|e]; [|reflexivity].
    cbn [omap obind concat]. rewrite render_app, append_assoc. reflexivity.
Qed.

(** The text of generateInsertStatements is the rendering of its
    fragments. *)
Lemma generateInsertStatements_render (cts : ColumnTypes) (tables : list TableInfo)
  (data : Dataset) (includeDropStatements : option bool) :
  generateInsertStatements cts tables data includeDropStatements
  = omap render (insertFragments cts tables data includeDropStatements).
Proof.
  unfold generateInsertStatements, insertFragments. rewrite insertTables_render.
  destruct (mapOutcome _ tables); reflexivity.
Qed.




(** *** The full document *)

Lemma schemaEnums_render (rows : list (string * string)) (sql : string) :
  schemaEnums rows sql = sql +:+ render (enumFragments rows).
Proof.
  revert sql. induction rows as [|[type_name create_enum] rest IH]; intros sql.
  - cbn. rewrite append_nil_r. reflexivity.
  - cbn [schemaEnums]. rewrite IH. unfold enumFragments. cbn [map concat fst snd].
    rewrite render_app. cbn [render renderFragment]. append_normalize.
Qed.

Lemma schemaIndexes_render (rows : list string) (sql : string) :
  schemaIndexes rows sql = sql +:+ render (map IndexDef rows).
Proof.
  revert sql. induction rows as [|indexdef rest IH]; intros sql.
  - cbn. rewrite append_nil_r. reflexivity.
  - cbn [schemaIndexes map render renderFragment]. rewrite IH. append_normalize.
Qed.

Lemma schemaTables_render (env : Env) (tables : list TableInfo) (sql : string)
  (st : state) :
  schemaTables env tables sql st
  = let '(r, st') := schemaTableFragments env tables st in
    (omap (fun fs => sql +:+ render fs) r, st').
Proof.
  revert sql st. induction tables as [|table rest IH]; intros sql st.
  - cbn. rewrite append_nil_r. reflexivity.
  - cbn [schemaTables schemaTableFragments]. unfold bind, pgQuery.
    destruct (pg_create_table env (calls st) (schema table) (name table))
      as [[|create_statement rows]|e]; [| |reflexivity].
    + rewrite IH. destruct (schemaTableFragments env rest _) as [[fs|e] st'];
        reflexivity.
    + rewrite IH. destruct (schemaTableFragments env rest _) as [[fs|e] st'];
        [|reflexivity].
      unfold ret. cbn [omap obind render renderFragment]. do 2 f_equal.
      append_normalize.
Qed.

Lemma extractSchema_render (env : Env) (config : SupabaseExtractorConfig)
  (tables : list TableInfo) (st : state) :
  extractSchema env config tables st
  = let '(r, st') := schemaFragments env config tables st in (omap render r, st').
Proof.
  unfold extractSchema, schemaFragments, try_finally, bind.
  destruct (pgConnect env config st) as [[[]|e] st1].
  2: { destruct (pgEnd env st1) as [[[]|e'] st2]; reflexivity. }
  unfold pgQuery at 1 3.
  destruct (pg_enums env (calls st1)) as [enumRows|e].
  2: { destruct (pgEnd env _) as [[[]|e'] st2]; reflexivity. }
  rewrite schemaTables_render.
  destruct (schemaTableFragments env tables _) as [[tableFs|e] st2].
  2: { cbn [omap obind]. destruct (pgEnd env st2) as [[[]|e'] st3]; reflexivity. }
  cbn [omap obind]. unfold pgQuery.
  destruct (pg_indexes env (calls st2)) as [indexRows|e].
  2: { destruct (pgEnd env _) as [[[]|e'] st3]; reflexivity. }
  unfold ret.
  destruct (pgEnd env _) as [[[]|e'] st3]; [|reflexivity].
  cbn [omap obind]. do 2 f_equal.
  destruct enumRows as [|enumRow enumRows], indexRows as [|indexRow indexRows];
    rewrite ?schemaEnums_render, ?schemaIndexes_render, ?render_app;
    cbn [render renderFragment app]; append_normalize.
Qed.

(** The text of generateReconstructionSQL is the rendering of its
    fragments. *)
Lemma generateReconstructionSQL_render (env : Env) (config : SupabaseExtractorConfig)
  (tables : list TableInfo) (data : Dataset) (st : state) :
  generateReconstructionSQL env config tables data st
  = let '(r, st') := reconstructionFragments env config tables data st in
    (omap render r, st').
Proof.
  unfold generateReconstructionSQL, reconstructionFragments, bind, now, ret.
  destruct (hasDatabaseUrl config).
  - rewrite extractSchema_render.
    destruct (schemaFragments env config tables _) as [[schemaFs|e] st1]; [|reflexivity].
    cbn [omap obind]. rewrite generateInsertStatements_render.
    destruct (insertFragments _ tables data None) as [insertFs|e]; [|reflexivity].
    cbn [omap obind]. do 2 f_equal.
    rewrite !render_app. cbn [render renderFragment app]. append_normalize.
  - rewrite generateInsertStatements_render.
    destruct (insertFragments _ tables data None) as [insertFs|e]; [|reflexivity].
    cbn [omap obind]. do 2 f_equal.
    rewrite !render_app. cbn [render renderFragment app]. append_normalize.
Qed.

(** The DROP TABLE guard is among a table's fragments exactly when it is
    requested and the table has rows. *)
Lemma tableFragments_drop (cts : ColumnTypes) (data : Dataset) (flag : bool)
  (table : TableInfo) (fs : list fragment) :
  tableFragments cts data flag table = Return fs ->
  existsb isDropTable fs
  = flag && match data !! name table with
            | None | Some [] => false
            | Some _ => true
            end.
Proof.
  unfold tableFragments.
  destruct (data !! name table) as [[|r tableData]|].
  - intros [= <-]. rewrite andb_false_r. reflexivity.
  - destruct (mapOutcome (rowFragment cts table) (r :: tableData)) as [inserts|e] eqn:Hrows;
      [|discriminate].
    cbn [omap obind]. intros [= <-].
    assert (existsb isDropTable inserts = false) as Hins.
    { apply not_true_is_false. intros Hex. apply existsb_exists in Hex as (f & Hin & Hf).
      assert (Forall (fun f => isDropTable f = false) inserts) as Hall.
      { eapply mapOutcome_Forall; [|exact Hrows].
        intros x y. unfold rowFragment.
        destruct (mapOutcome _ (Object_keys x)); [|discriminate].
        cbn [omap obind]. intros [= <-]. reflexivity. }
      rewrite Forall_forall in Hall. rewrite (Hall f) in Hf by (apply list_elem_of_In, Hin).
      discriminate. }
    destruct flag; cbn [app existsb isDropTable orb andb];
      rewrite ?existsb_app, ?Hins; reflexivity.
  - intros [= <-]. rewrite andb_false_r. reflexivity.
Qed.

Lemma insertFragments_no_drop (cts : ColumnTypes) (tables : list TableInfo)
  (data : Dataset) (fs : list fragment) :
  insertFragments cts tables data None = Return fs ->
  Forall (fun f => isDropTable f = false) fs.
Proof.
  unfold insertFragments. cbn [default].
  destruct (mapOutcome _ tables) as [fss|e] eqn:Hmap; [|discriminate].
  cbn [omap obind]. intros [= <-].
  apply Forall_concat.
  eapply mapOutcome_Forall; [|exact Hmap].
  intros table tfs Htable. apply tableFragments_drop in Htable. cbn [andb] in Htable.
  apply Forall_forall. intros f Hin.
  apply not_true_is_false. intros Hf.
  assert (existsb isDropTable tfs = true) as Hex
    by (apply existsb_exists; exists f; split; [apply list_elem_of_In, Hin|exact Hf]).
  congruence.
Qed.

Ltac no_drop_step :=
  first [ apply Forall_nil_2
        | apply Forall_cons_2; [reflexivity|]
        | assumption
        | apply Forall_app_2 ].

Lemma schemaTableFragments_no_drop (env : Env) (tables : list TableInfo)
  (st st' : state) (fs : list fragment) :
  schemaTableFragments env tables st = (Return fs, st') ->
  Forall (fun f => isDropTable f = false) fs.
Proof.
  revert st st' fs. induction tables as [|table rest IH]; intros st st' fs.
  - intros [= <- <-]. constructor.
  - cbn [schemaTableFragments]. unfold bind, pgQuery.
    destruct (pg_create_table env (calls st) (schema table) (name table))
      as [rows|e]; [|discriminate].
    destruct (schemaTableFragments env rest _) as [[more|e] st1] eqn:Hrest; [|discriminate].
    specialize (IH _ _ _ Hrest).
    destruct rows; intros [= <- <-]; repeat no_drop_step.
Qed.

Lemma schemaFragments_no_drop (env : Env) (config : SupabaseExtractorConfig)
  (tables : list TableInfo) (st st' : state) (fs : list fragment) :
  schemaFragments env config tables st = (Return fs, st') ->
  Forall (fun f => isDropTable f = false) fs.
Proof.
  unfold schemaFragments, try_finally, bind.
  destruct (pgConnect env config st) as [[[]|e] st1].
  2: { destruct (pgEnd env st1) as [[[]|e'] st2]; discriminate. }
  unfold pgQuery at 1.
  destruct (pg_enums env (calls st1)) as [enumRows|e].
  2: { destruct (pgEnd env _) as [[[]|e'] st2]; discriminate. }
  destruct (schemaTableFragments env tables _) as [[tableFs|e] st2] eqn:Htables.
  2: { destruct (pgEnd env st2) as [[[]|e'] st3]; discriminate. }
  unfold pgQuery.
  destruct (pg_indexes env (calls st2)) as [indexRows|e].
  2: { destruct (pgEnd env _) as [[[]|e'] st3]; discriminate. }
  unfold ret.
  destruct (pgEnd env _) as [[[]|e'] st3]; [|discriminate].
  intros [= <- <-].
  apply schemaTableFragments_no_drop in Htables.
  assert (Forall (fun f => isDropTable f = false) (enumFragments enumRows)) as Henums.
  { unfold enumFragments. apply Forall_concat, Forall_forall.
    intros l Hin. apply list_elem_of_fmap in Hin as (r & -> & _). repeat no_drop_step. }
  assert (Forall (fun f => isDropTable f = false) (map IndexDef indexRows)) as Hindexes.
  { apply Forall_forall. intros f Hin. apply list_elem_of_fmap in Hin as (r & -> & _).
    reflexivity. }
  assert (Forall (fun f => isDropTable f = false)
            match enumRows with
            | [] => []
            | _ => [Comment "Enum Types"; Blank] ++ enumFragments enumRows
            end) as Henums'.
  { destruct enumRows as [|enumRow enumRows']; [constructor|].
    generalize dependent (enumFragments (enumRow :: enumRows')).
    intros fs Hfs. repeat no_drop_step. }
  assert (Forall (fun f => isDropTable f = false)
            match indexRows with
            | [] => []
            | _ => [Comment "Indexes"; Blank] ++ map IndexDef indexRows ++ [Blank]
            end) as Hindexes'.
  { destruct indexRows as [|indexRow indexRows']; [constructor|].
    generalize dependent (map IndexDef (indexRow :: indexRows')).
    intros fs Hfs. repeat no_drop_step. }
  repeat no_drop_step.
Qed.



(** With the parameter set, the guard is emitted for a table with rows. *)
Lemma generateInsertStatements_with_drop :
  generateInsertStatements ∅ [Scenario.usersTable] Scenario.usersOnly (Some true)
  = Return
      (renderFragment (DropTable Scenario.usersTable)
       +:+ "-- Table: public.users" +:+ newline
       +:+ "-- Data for table: users" +:+ newline +:+ "-- Rows: 2" +:+ newline +:+ newline
       +:+ renderFragment (Insert Scenario.usersTable ["id"; "name"] ["1"; "'Ann'"])
       +:+ renderFragment (Insert Scenario.usersTable ["id"; "name"] ["2"; "'O''Brien'"])
       +:+ newline).
Proof. vm_compute. reflexivity. Qed.

(** *** Further facts and worked examples *)

(** With a connection string and a reachable catalog, discovery returns
    one descriptor per catalog row, in the order of the rows. *)
Lemma discoverTables_privileged_success (env : Env) (config : SupabaseExtractorConfig)
  (st : state) (rows : list (string * string)) :
  hasDatabaseUrl config = true ->
  pg_connect env (calls st) (databaseUrl config) = None ->
  pg_tables env (calls st ++ [PgConnect (databaseUrl config)]) = Return rows ->
  pg_end env (calls st ++ [PgConnect (databaseUrl config)] ++ [PgQuery TablesQuery]) = None ->
  fst (discoverTables env config st)
  = Return (map (fun r => {| name := fst r; schema := snd r |}) rows).
Proof.
  intros Hurl Hconn Hquery Hend. unfold discoverTables. rewrite Hurl.
  unfold discoverTablesViaPg, try_finally, bind, pgConnect, pgEnd, pgQuery, ret.
  rewrite Hconn. cbn [record_call calls]. rewrite Hquery. cbn [record_call calls].
  rewrite <- app_assoc, Hend. reflexivity.
Qed.

(** The types fetched for a table are the catalog rows, a later row
    for the same column replacing an earlier one. *)
Lemma fetchColumnTypes_success (env : Env) (config : SupabaseExtractorConfig)
  (tableName schema_ : string) (st : state) (rows : list (string * string)) :
  hasDatabaseUrl config = true ->
  pg_connect env (calls st) (databaseUrl config) = None ->
  pg_columns env (calls st ++ [PgConnect (databaseUrl config)]) schema_ tableName
    = Return rows ->
  pg_end env (calls st ++ [PgConnect (databaseUrl config)]
              ++ [PgQuery (ColumnTypesQuery schema_ tableName)]) = None ->
  fst (fetchColumnTypes env config tableName (Some schema_) st)
  = Return (typeMapOf rows).
Proof.
  intros Hurl Hconn Hquery Hend. unfold fetchColumnTypes. rewrite Hurl.
  cbv zeta. cbn [negb from_option]. unfold id.
  unfold try_finally, bind, pgConnect, pgEnd, pgQuery, ret.
  rewrite Hconn. cbn [record_call calls]. rewrite Hquery. cbn [record_call calls].
  rewrite <- app_assoc, Hend. reflexivity.
Qed.

Lemma typeMapOf_last (rows : list (string * string)) (column data_type : string) :
  typeMapOf (rows ++ [(column, data_type)]) !! column = Some data_type.
Proof.
  unfold typeMapOf. rewrite fold_left_app. cbn [fold_left fst snd].
  apply lookup_insert_eq.
Qed.

(** When the column-type map holds the catalog's generic ARRAY for the
    column, the array value is rendered as JSON text instead. *)
Lemma formatValue_ARRAY_entry (cts : ColumnTypes) (types : gmap string string)
  (tableName columnName : string) :
  cts !! tableName = Some types ->
  types !! columnName = Some "ARRAY" ->
  formatValue cts (VArray [VString "a"; VString "b"]) (Some tableName) (Some columnName)
  = Return ("'[" +:+ quoteJSONString "a" +:+ "," +:+ quoteJSONString "b" +:+ "]'::jsonb").
Proof.
  intros Hcts Htypes. unfold formatValue, lookupColumnType.
  destruct tableName as [|a t]; [reflexivity|].
  destruct columnName as [|b c]; [reflexivity|].
  cbn [truthy negb]. rewrite Hcts, Htypes. reflexivity.
Qed.

Example Number_toString_samples :
  Number_toString (S754_finite false 4503599627370496 (-52)) = "1" /\
  Number_toString (S754_finite true 6755399441055744 (-52)) = "-1.5" /\
  Number_toString (S754_finite false 7205759403792794 (-56)) = "0.1" /\
  Number_toString (S754_finite false 5404319552844596 (-54)) = "0.30000000000000004" /\
  Number_toString (S754_finite false 7629394531250000 17) = "1e+21" /\
  Number_toString (S754_finite false 5960464477539062 24) = "1e+23" /\
  Number_toString (S754_finite false 7555786372591432 (-76)) = "1e-7" /\
  Number_toString (S754_finite false 1 (-1074)) = "5e-324" /\
  Number_toString (S754_finite false 9007199254740991 971) = "1.7976931348623157e+308".
Proof. vm_compute. repeat split. Qed.

Example formatValue_scalars :
  formatValue ∅ VUndefined None None = Return "NULL" /\
  formatValue ∅ (VBoolean true) None None = Return "TRUE" /\
  formatValue ∅ (VBoolean false) None None = Return "FALSE" /\
  formatValue ∅ (VString "O'Brien") None None = Return "'O''Brien'" /\
  formatValue ∅ Scenario.two (Some "users") (Some "id") = Return "2" /\
  formatValue ∅ (VNumber (S754_infinity true)) None None = Return "NULL" /\
  formatValue ∅ (VDate (Some 1793619720123)) None None
    = Return "'2026-11-02T11:42:00.123Z'" /\
  formatValue ∅ (VBigInt (-12)) None None = Return "'-12'" /\
  formatValue ∅ (VObject [("k", VNull); ("skip", VUndefined)]) None None
    = Return ("'{" +:+ quoteJSONString "k" +:+ ":null}'::jsonb") /\
  formatValue ∅ (VObject [("n", VBigInt 1)]) None None = Return "NULL".
Proof. vm_compute. repeat split. Qed.

Example quoteIdentifier_samples :
  quoteIdentifier "users" = String dquote ("users" +:+ String dquote "") /\
  parseIdentifier (quoteIdentifier (String dquote "; DROP TABLE x; --"))
  = Some (String dquote "; DROP TABLE x; --").
Proof. vm_compute. repeat split. Qed.

(** ** Further properties of the code *)

(** *** Values that come from JSON *)


Lemma mapOutcome_length {A B} (f : A -> outcome B) (l : list A) (ys : list B) :
  mapOutcome f l = Return ys -> length ys = length l.
Proof.
  revert ys. induction l as [|x l IH]; intros ys; cbn [mapOutcome].
  - intros [= <-]. reflexivity.
  - destruct (f x) as [y|e]; [|discriminate]. cbn [obind].
    destruct (mapOutcome f l) as [ys'|e]; [|discriminate]. cbn [omap obind].
    intros [= <-]. cbn [length]. rewrite (IH ys' eq_refl). reflexivity.
Qed.

Lemma isJSON_array (items : list value) :
  isJSON (VArray items) = forallb isJSON items.
Proof. induction items as [|x rest IH]; [reflexivity|]. cbn in *. rewrite IH. reflexivity. Qed.

Lemma isJSON_object (props : list (string * value)) :
  isJSON (VObject props) = forallb (fun kv => isJSON (snd kv)) props.
Proof.
  induction props as [|[k x] rest IH]; [reflexivity|]. cbn in *. rewrite IH. reflexivity.
Qed.



(** [JSON.stringify] of a value from JSON neither throws nor gives
    undefined. *)
Lemma JSON_stringify_json (v : value) :
  isJSON v = true -> exists j, JSON_stringify v = Return (Some j).
Proof.
  unfold JSON_stringify.
  induction v as [| |b|x|z|s|d|src|t|items IH|props IH] using value_induction;
    try discriminate; try (intros _; eexists; reflexivity).
  - rewrite isJSON_array. intros Hall. cbn [serializeJSON].
    assert (exists parts,
               (fix elements (l : list value) : outcome (list string) :=
                  match l with
                  | [] => Return []
                  | x :: rest =>
                      obind (serializeJSON x)
                        (fun s => omap (cons (default "null" s)) (elements rest))
                  end) items = Return parts) as [parts ->].
    { induction IH as [|x rest Hx _ IHrest].
      - eexists; reflexivity.
      - cbn [forallb] in Hall. apply andb_true_iff in Hall as [Hx' Hrest].
        destruct (IHrest Hrest) as [parts ->].
        destruct (Hx Hx') as [j ->]. eexists; reflexivity. }
    eexists; reflexivity.
  - rewrite isJSON_object. intros Hall. cbn [serializeJSON].
    assert (exists parts,
               (fix members (l : list (string * value)) : outcome (list string) :=
                  match l with
                  | [] => Return []
                  | (k, x) :: rest =>
                      obind (serializeJSON x)
                        (fun s =>
                           match s with
                           | None => members rest
                           | Some str =>
                               omap (cons (quoteJSONString k +:+ ":" +:+ str))
                                    (members rest)
                           end)
                  end) props = Return parts) as [parts ->].
    { induction IH as [|[k x] rest Hx _ IHrest].
      - eexists; reflexivity.
      - cbn [forallb snd] in Hall, Hx. apply andb_true_iff in Hall as [Hx' Hrest].
        destruct (IHrest Hrest) as [parts ->].
        destruct (Hx Hx') as [j ->]. eexists; reflexivity. }
    eexists; reflexivity.
Qed.









(** X12. An object from JSON is rendered as its JSON text, quoted as a
    literal and cast to jsonb, never as NULL; reading the literal back
    gives the JSON text. *)
Theorem formatValue_object_jsonb (cts : ColumnTypes) (props : list (string * value))
  (tableName columnName : option string) :
  isJSON (VObject props) = true ->
  exists json,
    JSON_stringify (VObject props) = Return (Some json) /\
    formatValue cts (VObject props) tableName columnName
      = Return (quoteLiteral json +:+ "::jsonb") /\
    parseLiteral (quoteLiteral json) = Some json.
Proof.
  intros Hv. destruct (JSON_stringify_json _ Hv) as [json Hjson].
  exists json. split; [exact Hjson|]. split.
  - unfold formatValue.
    destruct (lookupColumnType cts tableName columnName) as [ct|];
      [destruct (endsWith ct "[]")|]; rewrite Hjson; unfold quoteLiteral;
      rewrite ?append_cons, ?append_assoc; reflexivity.
  - apply parseQuoted_replaceAll.
Qed.

Lemma formatValue_object_jsonb_witness :
  exists json,
    formatValue ∅ (VObject [("tags", VArray [VString "it's"; VNull])]) None None
    = Return (quoteLiteral json +:+ "::jsonb") /\
    parseLiteral (quoteLiteral json) = Some json.
Proof.
  destruct (formatValue_object_jsonb ∅ [("tags", VArray [VString "it's"; VNull])]
              None None eq_refl) as (json & _ & Hformat & Hparse).
  exists json. split; assumption.
Defined.

(** X15. Quoting loses nothing: two identifiers with the same quoted form
    are equal, and so are two strings with the same literal. *)
Theorem quoting_injective :
  (forall a b, quoteIdentifier a = quoteIdentifier b -> a = b) /\
  (forall a b, quoteLiteral a = quoteLiteral b -> a = b).
Proof.
  split; intros a b Heq.
  - assert (parseIdentifier (quoteIdentifier a) = parseIdentifier (quoteIdentifier b))
      as Hparse by (rewrite Heq; reflexivity).
    unfold parseIdentifier, quoteIdentifier in Hparse.
    rewrite !parseQuoted_replaceAll in Hparse. congruence.
  - assert (parseLiteral (quoteLiteral a) = parseLiteral (quoteLiteral b))
      as Hparse by (rewrite Heq; reflexivity).
    unfold parseLiteral, quoteLiteral in Hparse.
    rewrite !(parseQuoted_replaceAll squote) in Hparse. congruence.
Qed.

(** *** Number texts *)

Lemma allChars_app (p : ascii -> bool) (s t : string) :
  allChars p (s +:+ t) = allChars p s && allChars p t.
Proof.
  induction s as [|a s IH]; [reflexivity|].
  rewrite append_cons. cbn [allChars]. rewrite IH, andb_assoc. reflexivity.
Qed.

Lemma digit_char_number (d : N) : (d < 10)%N -> isNumberChar (digit_char d) = true.
Proof.
  intros Hd.
  assert (d = 0 \/ d = 1 \/ d = 2 \/ d = 3 \/ d = 4 \/ d = 5 \/ d = 6 \/ d = 7
          \/ d = 8 \/ d = 9)%N as Hcases by lia.
  repeat destruct Hcases as [-> | Hcases]; try reflexivity. subst d. reflexivity.
Qed.

Lemma decimal_go_number (fuel : nat) (n : N) (acc : string) :
  allChars isNumberChar acc = true ->
  allChars isNumberChar (decimal_go fuel n acc) = true.
Proof.
  revert n acc. induction fuel as [|f IH]; intros n acc Hacc; cbn [decimal_go].
  - cbn [allChars]. rewrite Hacc, digit_char_number; [reflexivity|].
    apply N.mod_lt. discriminate.
  - assert (allChars isNumberChar (String (digit_char (n mod 10)%N) acc) = true) as Hacc'.
    { cbn [allChars]. rewrite Hacc, digit_char_number; [reflexivity|].
      apply N.mod_lt. discriminate. }
    destruct (n / 10 =? 0)%N; [exact Hacc'|apply IH, Hacc'].
Qed.

Lemma decimal_number (n : N) : allChars isNumberChar (decimal n) = true.
Proof. apply decimal_go_number. reflexivity. Qed.

Lemma takeChars_all (p : ascii -> bool) (n : nat) (s : string) :
  allChars p s = true -> allChars p (takeChars n s) = true.
Proof.
  revert s. induction n as [|n IH]; intros [|a s]; cbn [takeChars allChars]; auto.
  intros [Ha Hs]%andb_true_iff. rewrite Ha, IH; auto.
Qed.

Lemma dropChars_all (p : ascii -> bool) (n : nat) (s : string) :
  allChars p s = true -> allChars p (dropChars n s) = true.
Proof.
  revert s. induction n as [|n IH]; intros [|a s]; cbn [dropChars allChars]; auto.
  intros [Ha Hs]%andb_true_iff. auto.
Qed.

Lemma repeat_zero_number (n : nat) : allChars isNumberChar (repeat_string n "0") = true.
Proof.
  induction n as [|n IH]; [reflexivity|].
  cbn [repeat_string]. rewrite allChars_app, IH. reflexivity.
Qed.

Lemma layout_number (s k n : Z) : allChars isNumberChar (layout s k n) = true.
Proof.
  unfold layout.
  pose proof (decimal_number (Z.to_N s)) as Hdigits.
  repeat match goal with
         | |- context [if ?c then _ else _] => destruct c
         end;
    rewrite ?allChars_app, ?Hdigits, ?repeat_zero_number, ?decimal_number,
      ?takeChars_all, ?dropChars_all by exact Hdigits;
    reflexivity.
Qed.

Lemma Number_toString_chars (x : number) :
  Number_isFinite x = true -> allChars isNumberChar (Number_toString x) = true.
Proof.
  destruct x as [sg|sg| |sg m e]; try discriminate; intros _; [reflexivity|].
  cbn [Number_toString]. destruct (shortest (Z.pos m) e) as [[d k] n].
  rewrite allChars_app, layout_number. destruct sg; reflexivity.
Qed.

(** X13. A number is rendered either as NULL or as a text made only of the
    characters 0-9 . e + - (no quote, no space, no letter other than e):
    a numeric cell cannot break out of its place in the statement. *)
Theorem formatValue_number_chars (cts : ColumnTypes) (x : number)
  (tableName columnName : option string) :
  exists s,
    formatValue cts (VNumber x) tableName columnName = Return s /\
    (if Number_isFinite x then allChars isNumberChar s = true else s = "NULL").
Proof.
  cbn [formatValue]. destruct (Number_isFinite x) eqn:Hfinite; cbn [negb];
    eexists; (split; [reflexivity|]); [|reflexivity].
  apply Number_toString_chars, Hfinite.
Qed.



(** *** Paginated extraction against an arbitrary service *)

Lemma pageRequests_snoc (table : string) (first count : nat) :
  pageRequests table first (S count)
  = pageRequests table first count
    ++ [SelectRange table (Z.of_nat (first + count) * limit)
          (Z.of_nat (first + count) * limit + limit - 1)].
Proof.
  revert first. induction count as [|count IH]; intros first.
  - cbn [pageRequests app]. rewrite Nat.add_0_r. reflexivity.
  - change (pageRequests table first (S (S count)))
      with (SelectRange table (Z.of_nat first * limit) (Z.of_nat first * limit + limit - 1)
            :: pageRequests table (S first) (S count)).
    rewrite IH. cbn [pageRequests app].
    replace (S first + count)%nat with (first + S count)%nat by lia. reflexivity.
Qed.

(** A run of the extraction loop from page [j]: it asks for pages
    [j .. j + n]; the first n of them came back full, and the answer to the
    last request decides the outcome. *)
Lemma extractTableData_loop_run (env : Env) (table : string) (fuel : nat) :
  forall (j : nat) (allRows : list row) (st st' : state) (r : outcome (list row)),
    extractTableData_loop env fuel table allRows (Z.of_nat j * limit) st = Some (r, st') ->
    exists n,
      (n < fuel)%nat /\
      calls st' = calls st ++ pageRequests table j (S n) /\
      columnTypes st' = columnTypes st /\
      Forall (fun page => length page = 1000%nat)
        (receivedPages env table (calls st) j n) /\
      let answer :=
        sb_range env (calls st ++ pageRequests table j n) table
          (Z.of_nat (j + n) * limit) (Z.of_nat (j + n) * limit + limit - 1) in
      match r with
      | Return rows =>
          exists lastPage,
            (answer = Return (Some lastPage, None) \/
             (answer = Return (None, None) /\ lastPage = [])) /\
            length lastPage <> 1000%nat /\
            rows = allRows ++ concat (receivedPages env table (calls st) j n) ++ lastPage
      | Throw e =>
          answer = Throw e \/
          exists data error,
            answer = Return (data, Some error) /\
            e = Error ("Error fetching data from " +:+ table +:+ ": " +:+ message error)
      end.
Proof.
  induction fuel as [|fuel IH]; intros j allRows st st' r; [discriminate|].
  cbn [extractTableData_loop]. unfold selectRange.
  destruct (sb_range env (calls st) table (Z.of_nat j * limit)
              (Z.of_nat j * limit + limit - 1)) as [[data [error|]]|e] eqn:Hanswer.
  - (* an error is reported *)
    intros [= <- <-]. exists 0%nat.
    cbn [pageRequests receivedPages record_call calls columnTypes].
    rewrite app_nil_r, Nat.add_0_r.
    repeat split; [lia|constructor|]. right. exists data, error. split; [exact Hanswer|reflexivity].
  - destruct data as [[|x page]|].
    + (* an empty page *)
      intros [= <- <-]. exists 0%nat.
      cbn [pageRequests receivedPages record_call calls columnTypes concat].
      rewrite app_nil_r, Nat.add_0_r.
      repeat split; [lia|constructor|]. exists []. rewrite app_nil_r.
      repeat split; [left; exact Hanswer|discriminate].
    + cbv beta iota zeta.
      destruct (Z.of_nat (length (x :: page)) =? limit) eqn:Hfull.
      * (* a full page: the loop goes on *)
        apply Z.eqb_eq in Hfull. unfold limit in Hfull.
        set (st1 := record_call _ st).
        replace (Z.of_nat j * limit + limit) with (Z.of_nat (S j) * limit) by lia.
        intros Hrun. apply IH in Hrun as (n & Hn & Hcalls & Hcts & Hpages & Hlast).
        subst st1. cbn [record_call calls columnTypes] in Hcalls, Hcts, Hpages, Hlast.
        exists (S n). split; [lia|]. split.
        { rewrite Hcalls, <- app_assoc. reflexivity. }
        split; [exact Hcts|].
        cbn [receivedPages]. rewrite Hanswer.
        split; [constructor; [lia|exact Hpages]|].
        cbn zeta in Hlast |- *.
        replace (j + S n)%nat with (S j + n)%nat by lia.
        change (pageRequests table j (S n))
          with (SelectRange table (Z.of_nat j * limit) (Z.of_nat j * limit + limit - 1)
                :: pageRequests table (S j) n).
        rewrite <- app_assoc in Hlast. cbn [app] in Hlast.
        destruct r as [rows|e']; [|exact Hlast].
        destruct Hlast as (lastPage & Hans & Hlen & Hrows).
        exists lastPage. split; [exact Hans|]. split; [exact Hlen|].
        rewrite Hrows. cbn [concat]. rewrite <- !app_assoc. reflexivity.
      * (* a short (or oversized) page stops the loop *)
        apply Z.eqb_neq in Hfull. unfold limit in Hfull.
        intros [= <- <-]. exists 0%nat.
        cbn [pageRequests receivedPages record_call calls columnTypes concat].
        rewrite app_nil_r, Nat.add_0_r.
        repeat split; [lia|constructor|]. exists (x :: page).
        repeat split; [left; exact Hanswer|lia].
    + (* no data *)
      intros [= <- <-]. exists 0%nat.
      cbn [pageRequests receivedPages record_call calls columnTypes concat].
      rewrite app_nil_r, Nat.add_0_r.
      repeat split; [lia|constructor|]. exists []. rewrite app_nil_r.
      repeat split; [right; split; [exact Hanswer|reflexivity]|discriminate].
  - (* the request is rejected *)
    intros [= <- <-]. exists 0%nat.
    cbn [pageRequests receivedPages record_call calls columnTypes].
    rewrite app_nil_r, Nat.add_0_r.
    repeat split; [lia|constructor|]. left. exact Hanswer.
Qed.

Lemma length_receivedPages (env : Env) (table : string) (tr : list call)
  (first count : nat) :
  length (receivedPages env table tr first count) = count.
Proof.
  revert tr first. induction count as [|count IH]; intros tr first; [reflexivity|].
  cbn [receivedPages length]. rewrite IH. reflexivity.
Qed.

Lemma length_concat_full (pages : list (list row)) :
  Forall (fun page => length page = 1000%nat) pages ->
  length (concat pages) = (length pages * 1000)%nat.
Proof.
  induction 1 as [|page pages Hpage _ IH]; [reflexivity|].
  cbn [concat length]. rewrite length_app, Hpage, IH. lia.
Qed.

(** X1. Whatever the restricted API answers, when extractTableData
    returns rows it has asked for the windows [0, 999], [1000, 1999], ...
    in order, without gap or overlap, and for nothing else; all pages but
    the last came back with exactly 1000 rows; the last one came back with
    another number of rows (or without data); and the result is the pages
    received, concatenated in the order of the requests. *)
Theorem extractTableData_returns_received_pages (env : Env) (fuel : nat)
  (table : string) (st st' : state) (rows : list row) :
  extractTableData env fuel table st = Some (Return rows, st') ->
  exists (n : nat) (lastPage : list row),
    (n < fuel)%nat /\
    calls st' = calls st ++ pageRequests table 0 (S n) /\
    columnTypes st' = columnTypes st /\
    Forall (fun page => length page = 1000%nat)
      (receivedPages env table (calls st) 0 n) /\
    receivedPages env table (calls st) 0 (S n)
      = receivedPages env table (calls st) 0 n ++ [lastPage] /\
    length lastPage <> 1000%nat /\
    rows = concat (receivedPages env table (calls st) 0 (S n)) /\
    length rows = (n * 1000 + length lastPage)%nat.
Proof.
  intros Hrun. unfold extractTableData in Hrun.
  apply (extractTableData_loop_run env table fuel 0%nat) in Hrun
    as (n & Hn & Hcalls & Hcts & Hfull & lastPage & Hanswer & Hlast & Hrows).
  cbn [app] in Hrows.
  assert (forall tr first count,
            receivedPages env table tr first (S count)
            = receivedPages env table tr first count
              ++ [match sb_range env (tr ++ pageRequests table first count) table
                          (Z.of_nat (first + count) * limit)
                          (Z.of_nat (first + count) * limit + limit - 1) with
                  | Return (Some page, None) => page
                  | _ => []
                  end]) as Hsnoc.
  { intros tr first count. revert tr first.
    induction count as [|count IH]; intros tr first.
    - cbn [receivedPages pageRequests app]. rewrite app_nil_r, Nat.add_0_r. reflexivity.
    - change (receivedPages env table tr first (S (S count)))
        with (match sb_range env tr table (Z.of_nat first * limit)
                      (Z.of_nat first * limit + limit - 1) with
              | Return (Some page, None) => page
              | _ => []
              end
              :: receivedPages env table
                   (tr ++ [SelectRange table (Z.of_nat first * limit)
                             (Z.of_nat first * limit + limit - 1)])
                   (S first) (S count)).
      rewrite IH. cbn [receivedPages pageRequests app].
      rewrite <- app_assoc. cbn [app].
      replace (S first + count)%nat with (first + S count)%nat by lia. reflexivity. }
  assert (receivedPages env table (calls st) 0 (S n)
          = receivedPages env table (calls st) 0 n ++ [lastPage]) as Hpages.
  { rewrite Hsnoc. f_equal. f_equal.
    destruct Hanswer as [-> | [-> ->]]; reflexivity. }
  exists n, lastPage. repeat split; try assumption.
  - rewrite Hpages, concat_app. cbn [concat]. rewrite app_nil_r. exact Hrows.
  - rewrite Hrows, length_app, length_concat_full, length_receivedPages by exact Hfull.
    reflexivity.
Qed.

Lemma extractTableData_returns_received_pages_witness :
  exists (n : nat) (lastPage : list row),
    (n < 1)%nat /\
    [Scenario.ann; Scenario.obrien]
    = concat (receivedPages Scenario.healthy "users" [] 0 (S n)) /\
    length [Scenario.ann; Scenario.obrien] = (n * 1000 + length lastPage)%nat.
Proof.
  destruct (extractTableData_returns_received_pages Scenario.healthy 1 "users"
              Scenario.initial
              {| columnTypes := ∅; calls := [SelectRange "users" 0 999] |}
              [Scenario.ann; Scenario.obrien] eq_refl)
    as (n & lastPage & Hn & _ & _ & _ & _ & _ & Hrows & Hlen).
  exists n, lastPage. repeat split; assumption.
Defined.

(** X2. When extractTableData throws, it is on the answer to its last
    request, the pages before it having come back full: either the request
    was rejected, and the rejection is thrown as it is, or the answer
    carried an error, and an Error naming the table and the message is
    thrown. The rows of the pages already received are not returned. *)
Theorem extractTableData_failure (env : Env) (fuel : nat) (table : string)
  (st st' : state) (e : error) :
  extractTableData env fuel table st = Some (Throw e, st') ->
  exists n : nat,
    calls st' = calls st ++ pageRequests table 0 (S n) /\
    Forall (fun page => length page = 1000%nat)
      (receivedPages env table (calls st) 0 n) /\
    (sb_range env (calls st ++ pageRequests table 0 n) table
       (Z.of_nat n * limit) (Z.of_nat n * limit + limit - 1) = Throw e \/
     exists data error,
       sb_range env (calls st ++ pageRequests table 0 n) table
         (Z.of_nat n * limit) (Z.of_nat n * limit + limit - 1)
       = Return (data, Some error) /\
       e = Error ("Error fetching data from " +:+ table +:+ ": " +:+ message error)).
Proof.
  intros Hrun. unfold extractTableData in Hrun.
  apply (extractTableData_loop_run env table fuel 0%nat) in Hrun
    as (n & Hn & Hcalls & Hcts & Hfull & Hanswer).
  exists n. repeat split; assumption.
Qed.

Lemma extractTableData_failure_witness :
  exists n : nat,
    Forall (fun page => length page = 1000%nat)
      (receivedPages Scenario.healthy "orders" [] 0 n) /\
    pageRequests "orders" 0 (S n) = [SelectRange "orders" 0 999].
Proof.
  destruct (extractTableData_failure Scenario.healthy 1 "orders" Scenario.initial
              {| columnTypes := ∅; calls := [SelectRange "orders" 0 999] |}
              (Error "Error fetching data from orders: permission denied") eq_refl)
    as (n & Hcalls & Hfull & _).
  exists n. split; [exact Hfull|]. symmetry. exact Hcalls.
Defined.

(** X3. The loop has no bound of its own: against a service that answers
    every request with a page of exactly 1000 rows, extractTableData does
    not return, however many iterations it is given. *)
Theorem extractTableData_endless (env : Env) (table : string) :
  (forall tr from to, exists page,
      sb_range env tr table from to = Return (Some page, None) /\
      length page = 1000%nat) ->
  forall fuel st, extractTableData env fuel table st = None.
Proof.
  intros Hfull fuel. unfold extractTableData. generalize (@nil row) at 1. generalize 0.
  induction fuel as [|fuel IH]; intros offset allRows st; [reflexivity|].
  cbn [extractTableData_loop]. unfold selectRange.
  destruct (Hfull (calls st) offset (offset + limit - 1)) as (page & -> & Hlen).
  destruct page as [|x page]; [discriminate|].
  cbv beta iota zeta. rewrite Hlen. cbn [Z.of_nat]. apply IH.
Qed.

Lemma extractTableData_endless_witness :
  extractTableData Cases.endless 25 "users" Scenario.initial = None.
Proof.
  apply (extractTableData_endless Cases.endless "users").
  intros tr from to. exists Cases.fullPage. split; reflexivity.
Defined.

(** *** The discipline of the privileged connection *)

Lemma pgRun_app (opened : bool) (l1 l2 : list call) :
  pgRun opened (l1 ++ l2)
  = match pgRun opened l1 with
    | Some opened' => pgRun opened' l2
    | None => None
    end.
Proof.
  revert opened. induction l1 as [|c l1 IH]; intros opened; [reflexivity|].
  cbn [app pgRun]. destruct (pgStep opened c); [apply IH|reflexivity].
Qed.

Lemma pgRun_closed_app (l1 l2 : list call) :
  pgRun false l1 = Some false -> pgRun false l2 = Some false ->
  pgRun false (l1 ++ l2) = Some false.
Proof. intros H1 H2. rewrite pgRun_app, H1. exact H2. Qed.

Lemma pgRun_pageRequests (table : string) (first count : nat) :
  pgRun false (pageRequests table first count) = Some false.
Proof.
  revert first. induction count as [|count IH]; intros first; [reflexivity|].
  cbn [pageRequests pgRun pgStep]. apply IH.
Qed.

Lemma pgRun_queries (l : list call) :
  Forall (fun c => isPgQuery c = true) l -> pgRun true l = Some true.
Proof.
  induction 1 as [|c l Hc _ IH]; [reflexivity|].
  destruct c; try discriminate. cbn [pgRun pgStep]. exact IH.
Qed.

Lemma extends_refl (st : state) : extends st st.
Proof. exists []. rewrite app_nil_r. split; reflexivity. Qed.

Lemma extends_trans (st1 st2 st3 : state) :
  extends st1 st2 -> extends st2 st3 -> extends st1 st3.
Proof.
  intros (l1 & H1 & R1) (l2 & H2 & R2). exists (l1 ++ l2).
  rewrite H2, H1, <- app_assoc. split; [reflexivity|apply pgRun_closed_app; assumption].
Qed.

(** The pattern [try { connect; queries } finally { end }]. *)
Lemma try_finally_connection {A} (env : Env) (config : SupabaseExtractorConfig)
  (queries : M A) (st st' : state) (r : outcome A) :
  (forall st1 st2 r1, queries st1 = (r1, st2) ->
     exists l, calls st2 = calls st1 ++ l /\ Forall (fun c => isPgQuery c = true) l) ->
  try_finally (bind (pgConnect env config) (fun _ => queries)) (pgEnd env) st = (r, st') ->
  extends st st'.
Proof.
  intros Hqueries. unfold try_finally, bind, pgConnect, pgEnd.
  destruct (pg_connect env (calls st) (databaseUrl config)) as [e|].
  - cbn [record_call calls].
    destruct (pg_end env _); intros [= <- <-];
      exists [PgConnect (databaseUrl config); PgEnd];
      cbn [record_call calls]; rewrite <- app_assoc; split; reflexivity.
  - destruct (queries _) as [r1 st2] eqn:Hq.
    destruct (Hqueries _ _ _ Hq) as (l & Hcalls & Hl).
    cbn [record_call calls] in Hcalls.
    destruct (pg_end env (calls st2)); intros [= <- <-];
      exists ([PgConnect (databaseUrl config)] ++ l ++ [PgEnd]);
      cbn [record_call calls]; rewrite Hcalls, <- !app_assoc;
      (split; [reflexivity|]);
      cbn [app pgRun pgStep]; rewrite pgRun_app, (pgRun_queries l Hl); reflexivity.
Qed.

Lemma pgQuery_calls {A} (q : query) (answer : list call -> outcome A) (st : state) :
  calls (snd (pgQuery q answer st)) = calls st ++ [PgQuery q].
Proof. reflexivity. Qed.

Lemma discoverTables_extends (env : Env) (config : SupabaseExtractorConfig)
  (st st' : state) (r : outcome (list TableInfo)) :
  discoverTables env config st = (r, st') -> extends st st'.
Proof.
  unfold discoverTables. destruct (hasDatabaseUrl config).
  - unfold discoverTablesViaPg. apply try_finally_connection.
    intros st1 st2 r1. unfold bind, pgQuery, ret.
    destruct (pg_tables env (calls st1)); intros [= <- <-];
      exists [PgQuery TablesQuery]; split; try reflexivity; repeat constructor.
  - unfold discoverTablesViaSupabase, bind, try_catch, rpc, ret, throw.
    assert (extends st (record_call (Rpc "get_all_tables") st)) as Hrpc.
    { exists [Rpc "get_all_tables"]. split; reflexivity. }
    destruct (sb_rpc env (calls st) "get_all_tables") as [[data [err|]]|e].
    + destruct data; intros [= <- <-]; exact Hrpc.
    + destruct data as [|elements|]; try (intros [= <- <-]; exact Hrpc).
      destruct (mapOutcome tableOfRpcElement elements); cbn [omap obind];
        intros [= <- <-]; exact Hrpc.
    + intros [= <- <-]; exact Hrpc.
Qed.

Lemma fetchColumnTypes_extends (env : Env) (config : SupabaseExtractorConfig)
  (tableName : string) (schema_ : option string) (st st' : state)
  (r : outcome (gmap string string)) :
  fetchColumnTypes env config tableName schema_ st = (r, st') -> extends st st'.
Proof.
  unfold fetchColumnTypes. cbv zeta. destruct (hasDatabaseUrl config); cbn [negb].
  - apply try_finally_connection.
    intros st1 st2 r1. unfold bind, pgQuery, ret.
    destruct (pg_columns env (calls st1) _ tableName); intros [= <- <-];
      eexists; (split; [reflexivity|]); repeat constructor.
  - intros [= <- <-]. apply extends_refl.
Qed.

Lemma prefetchColumnTypes_extends (env : Env) (config : SupabaseExtractorConfig)
  (tables : list TableInfo) (st : state) :
  extends st (prefetchColumnTypes env config tables st).
Proof.
  revert st. induction tables as [|table rest IH]; intros st; [apply extends_refl|].
  cbn [prefetchColumnTypes].
  destruct (fetchColumnTypes env config (name table) (Some (schema table)) st)
    as [[types|e] st1] eqn:Hfetch; apply fetchColumnTypes_extends in Hfetch.
  - eapply extends_trans; [exact Hfetch|].
    destruct (IH (set_columnTypes (name table) types st1)) as (l & Hl & Hrun).
    exists l. split; assumption.
  - eapply extends_trans; [exact Hfetch|apply IH].
Qed.

Lemma extractTableData_extends (env : Env) (fuel : nat) (table : string)
  (st st' : state) (r : outcome (list row)) :
  extractTableData env fuel table st = Some (r, st') ->
  extends st st' /\ columnTypes st' = columnTypes st.
Proof.
  intros Hrun. unfold extractTableData in Hrun.
  apply (extractTableData_loop_run env table fuel 0%nat) in Hrun
    as (n & _ & Hcalls & Hcts & _).
  split; [|exact Hcts]. exists (pageRequests table 0 (S n)).
  split; [exact Hcalls|apply pgRun_pageRequests].
Qed.

Lemma extractAllData_loop_extends (env : Env) (fuel : nat) (tables : list TableInfo)
  (allData : Dataset) (st st' : state) (r : outcome Dataset) :
  extractAllData_loop env fuel tables allData st = Some (r, st') ->
  extends st st' /\ columnTypes st' = columnTypes st.
Proof.
  revert allData st. induction tables as [|table rest IH]; intros allData st.
  - intros [= <- <-]. split; [apply extends_refl|reflexivity].
  - cbn [extractAllData_loop].
    destruct (extractTableData env fuel (name table) st) as [[[data|e] st1]|] eqn:Htable;
      [| |discriminate];
      apply extractTableData_extends in Htable as [Hext Hcts];
      intros Hrest; apply IH in Hrest as [Hext' Hcts'];
      (split; [eapply extends_trans; eassumption|congruence]).
Qed.

Lemma schemaTables_queries (env : Env) (tables : list TableInfo) (sql : string)
  (st st' : state) (r : outcome string) :
  schemaTables env tables sql st = (r, st') ->
  exists l, calls st' = calls st ++ l /\ Forall (fun c => isPgQuery c = true) l.
Proof.
  revert sql st. induction tables as [|table rest IH]; intros sql st.
  - intros [= <- <-]. exists []. rewrite app_nil_r. split; [reflexivity|constructor].
  - cbn [schemaTables]. unfold bind, pgQuery.
    destruct (pg_create_table env (calls st) (schema table) (name table))
      as [rows|e].
    + destruct rows; intros Hrest; apply IH in Hrest as (l & Hcalls & Hl);
        cbn [record_call calls] in Hcalls;
        exists (PgQuery (CreateTableQuery (schema table) (name table)) :: l);
        (split; [rewrite Hcalls, <- app_assoc; reflexivity|constructor; [reflexivity|exact Hl]]).
    + intros [= <- <-]. eexists. split; [reflexivity|repeat constructor].
Qed.

Lemma extractSchema_extends (env : Env) (config : SupabaseExtractorConfig)
  (tables : list TableInfo) (st st' : state) (r : outcome string) :
  extractSchema env config tables st = (r, st') -> extends st st'.
Proof.
  unfold extractSchema. apply try_finally_connection.
  intros st1 st2 r1. unfold bind. unfold pgQuery at 1.
  destruct (pg_enums env (calls st1)) as [enumRows|e].
  2: { intros [= <- <-]. eexists. split; [reflexivity|repeat constructor]. }
  destruct (schemaTables env tables _ _) as [[sql|e] st3] eqn:Htables;
    apply schemaTables_queries in Htables as (l & Hcalls & Hl);
    cbn [record_call calls] in Hcalls.
  2: { intros [= <- <-]. exists (PgQuery EnumQuery :: l).
       split; [rewrite Hcalls, <- app_assoc; reflexivity|constructor; [reflexivity|exact Hl]]. }
  unfold pgQuery, ret.
  destruct (pg_indexes env (calls st3)); intros [= <- <-];
    exists (PgQuery EnumQuery :: l ++ [PgQuery IndexQuery]);
    cbn [record_call calls];
    (split; [rewrite Hcalls, <- !app_assoc; reflexivity|]);
    (constructor; [reflexivity|]); (apply Forall_app_2; [exact Hl|repeat constructor]).
Qed.

Lemma generateReconstructionSQL_extends (env : Env) (config : SupabaseExtractorConfig)
  (tables : list TableInfo) (data : Dataset) (st st' : state) (r : outcome string) :
  generateReconstructionSQL env config tables data st = (r, st') -> extends st st'.
Proof.
  unfold generateReconstructionSQL, bind, now, ret.
  assert (extends st (record_call ClockNow st)) as Hclock
    by (exists [ClockNow]; split; reflexivity).
  destruct (hasDatabaseUrl config).
  - destruct (extractSchema env config tables _) as [[schemaSQL|e] st1] eqn:Hschema;
      apply extractSchema_extends in Hschema.
    + destruct (generateInsertStatements _ tables data None); intros [= <- <-];
        eapply extends_trans; eassumption.
    + intros [= <- <-]. eapply extends_trans; eassumption.
  - destruct (generateInsertStatements _ tables data None); intros [= <- <-];
      exact Hclock.
Qed.

(** X5. The privileged connection is used with discipline by the three
    public operations, whatever the clients answer and whether the
    operation returns or throws: the calls an operation adds to the trace
    open a connection only when none is open, query and release it only
    while open, never call the restricted API or the clock in between,
    and leave no connection open at the end. *)
Theorem connection_discipline (env : Env) (config : SupabaseExtractorConfig)
  (tables : list TableInfo) (data : Dataset) (fuel : nat) (st : state) :
  (forall r st', discoverTables env config st = (r, st') ->
     exists l, calls st' = calls st ++ l /\ pgRun false l = Some false) /\
  (forall r st', extractAllData env config fuel tables st = Some (r, st') ->
     exists l, calls st' = calls st ++ l /\ pgRun false l = Some false) /\
  (forall r st', generateReconstructionSQL env config tables data st = (r, st') ->
     exists l, calls st' = calls st ++ l /\ pgRun false l = Some false).
Proof.
  split; [|split]; intros r st' Hrun.
  - exact (discoverTables_extends env config st st' r Hrun).
  - unfold extractAllData, prefetchIfPrivileged in Hrun. cbv zeta in Hrun.
    apply extractAllData_loop_extends in Hrun as [Hext _].
    eapply extends_trans; [|exact Hext].
    destruct (hasDatabaseUrl config); [apply prefetchColumnTypes_extends|apply extends_refl].
  - exact (generateReconstructionSQL_extends env config tables data st st' r Hrun).
Qed.

Lemma connection_discipline_witness :
  exists l,
    calls (snd (generateReconstructionSQL Scenario.unreachable Scenario.privilegedConfig
                  [Scenario.usersTable] Scenario.usersOnly Scenario.initial))
    = [] ++ l /\
    pgRun false l = Some false.
Proof.
  apply (proj2 (proj2 (connection_discipline Scenario.unreachable
                         Scenario.privilegedConfig [Scenario.usersTable]
                         Scenario.usersOnly 0 Scenario.initial))
           (fst (generateReconstructionSQL Scenario.unreachable Scenario.privilegedConfig
                   [Scenario.usersTable] Scenario.usersOnly Scenario.initial))).
  apply surjective_pairing.
Defined.

(** *** Column types and discovery through the remote procedure *)

Lemma typeMapOf_acc (rows : list (string * string)) (acc : gmap string string)
  (column : string) :
  column ∉ map fst rows ->
  fold_left (fun typeMap r => <[fst r := snd r]> typeMap) rows acc !! column
  = acc !! column.
Proof.
  revert acc. induction rows as [|[c ty] rows IH]; intros acc Hnotin; [reflexivity|].
  cbn [fold_left fst snd map] in *. rewrite not_elem_of_cons in Hnotin.
  destruct Hnotin as [Hne Hrest]. rewrite IH by exact Hrest.
  apply lookup_insert_ne. congruence.
Qed.

(** X6. The type recorded for a column is the data type of the last
    catalog row for that column, and a column without a row has no
    entry. *)
Theorem typeMapOf_lookup (rows later : list (string * string))
  (column data_type : string) :
  (column ∉ map fst later ->
   typeMapOf (rows ++ (column, data_type) :: later) !! column = Some data_type) /\
  (column ∉ map fst rows -> typeMapOf rows !! column = None).
Proof.
  unfold typeMapOf. split; intros Hnotin.
  - rewrite fold_left_app. cbn [fold_left fst snd].
    rewrite typeMapOf_acc by exact Hnotin. apply lookup_insert_eq.
  - rewrite typeMapOf_acc by exact Hnotin. apply lookup_empty.
Qed.

Lemma mapOutcome_tableOfRpcElement_null (elements : list (option (string * option string))) :
  None ∈ elements ->
  exists e, mapOutcome tableOfRpcElement elements = Throw e.
Proof.
  induction elements as [|el rest IH]; intros Hin.
  - apply elem_of_nil in Hin. destruct Hin.
  - apply elem_of_cons in Hin. cbn [mapOutcome].
    destruct el as [[table_name table_schema]|].
    + destruct Hin as [Hin|Hin]; [discriminate|].
      destruct (IH Hin) as [e ->]. eexists; reflexivity.
    + eexists; reflexivity.
Qed.

Lemma mapOutcome_tableOfRpcElement_some (rows : list (string * option string)) :
  mapOutcome tableOfRpcElement (map Some rows)
  = Return (map (fun r => {| name := fst r;
                             schema := match snd r with
                                       | Some s => if truthy s then s else "public"
                                       | None => "public"
                                       end |}) rows).
Proof.
  induction rows as [|[table_name table_schema] rows IH]; [reflexivity|].
  cbn [map mapOutcome tableOfRpcElement obind]. rewrite IH. reflexivity.
Qed.

(** X7. Discovery through the remote procedure is all or nothing. When
    the procedure answers with an array of table objects, discoverTables
    returns one descriptor per element, in order, the schema being public
    where the element has none (or an empty one); if a single element of
    the array is null, no table at all is returned. *)
Theorem discoverTables_rpc_elements (env : Env) (config : SupabaseExtractorConfig)
  (st : state) (elements : list (option (string * option string))) :
  hasDatabaseUrl config = false ->
  sb_rpc env (calls st) "get_all_tables" = Return (DataArray elements, None) ->
  (forall rows, elements = map Some rows ->
     fst (discoverTables env config st)
     = Return (map (fun r => {| name := fst r;
                                schema := match snd r with
                                          | Some s => if truthy s then s else "public"
                                          | None => "public"
                                          end |}) rows)) /\
  (None ∈ elements -> fst (discoverTables env config st) = Return []).
Proof.
  intros Hurl Hrpc. unfold discoverTables. rewrite Hurl.
  unfold discoverTablesViaSupabase, bind, try_catch, rpc, ret, throw. rewrite Hrpc.
  split.
  - intros rows ->. rewrite mapOutcome_tableOfRpcElement_some. reflexivity.
  - intros Hin. destruct (mapOutcome_tableOfRpcElement_null elements Hin) as [e ->].
    reflexivity.
Qed.

Lemma discoverTables_rpc_elements_witness :
  fst (discoverTables (Cases.withRpc [Some ("users", None); None])
         Scenario.restrictedConfig Scenario.initial) = Return [] /\
  fst (discoverTables (Cases.withRpc (map Some [("users", None); ("logs", Some "audit")]))
         Scenario.restrictedConfig Scenario.initial)
  = Return [{| name := "users"; schema := "public" |};
            {| name := "logs"; schema := "audit" |}].
Proof.
  split.
  - apply (proj2 (discoverTables_rpc_elements (Cases.withRpc [Some ("users", None); None])
                    Scenario.restrictedConfig Scenario.initial
                    [Some ("users", None); None] eq_refl eq_refl)).
    rewrite !elem_of_cons. right. left. reflexivity.
  - apply (proj1 (discoverTables_rpc_elements
                    (Cases.withRpc (map Some [("users", None); ("logs", Some "audit")]))
                    Scenario.restrictedConfig Scenario.initial
                    (map Some [("users", None); ("logs", Some "audit")]) eq_refl eq_refl)
             [("users", None); ("logs", Some "audit")] eq_refl).
Defined.

(** *** extractAllData *)



(** *** The INSERT statements *)

(** X8. The document of generateInsertStatements is built table by table,
    in the order of the list: the document for a list in two parts is the
    document for the first part followed by the document for the second,
    and it fails exactly when one of them fails (the first failure
    wins). *)
Theorem generateInsertStatements_app (cts : ColumnTypes)
  (tables1 tables2 : list TableInfo) (data : Dataset)
  (includeDropStatements : option bool) :
  generateInsertStatements cts (tables1 ++ tables2) data includeDropStatements
  = obind (generateInsertStatements cts tables1 data includeDropStatements)
      (fun text1 =>
         omap (fun text2 => text1 +:+ text2)
           (generateInsertStatements cts tables2 data includeDropStatements)).
Proof.
  rewrite !generateInsertStatements_render. unfold insertFragments.
  rewrite mapOutcome_app.
  destruct (mapOutcome _ tables1) as [fss1|e]; [|reflexivity]. cbn [omap obind].
  destruct (mapOutcome _ tables2) as [fss2|e]; [|reflexivity]. cbn [omap obind].
  rewrite concat_app, render_app. reflexivity.
Qed.

Lemma filter_isInsert_app (fs gs : list fragment) :
  length (filter (fun f => isInsert f = true) (fs ++ gs))
  = (length (filter (fun f => isInsert f = true) fs)
     + length (filter (fun f => isInsert f = true) gs))%nat.
Proof. rewrite filter_app, length_app. reflexivity. Qed.

Lemma rowFragments_all_inserts (cts : ColumnTypes) (table : TableInfo)
  (tableData : list row) (inserts : list fragment) :
  mapOutcome (rowFragment cts table) tableData = Return inserts ->
  length (filter (fun f => isInsert f = true) inserts) = length tableData.
Proof.
  revert inserts. induction tableData as [|r rest IH]; intros inserts; cbn [mapOutcome].
  - intros [= <-]. reflexivity.
  - unfold rowFragment at 1.
    destruct (mapOutcome _ (Object_keys r)) as [values|e]; [|discriminate].
    cbn [omap obind].
    destruct (mapOutcome (rowFragment cts table) rest) as [inserts'|e]; [|discriminate].
    cbn [omap obind]. intros [= <-].
    rewrite filter_cons_True by reflexivity. cbn [length].
    rewrite (IH inserts' eq_refl). reflexivity.
Qed.

Lemma tableFragments_inserts (cts : ColumnTypes) (data : Dataset) (flag : bool)
  (table : TableInfo) (fs : list fragment) :
  tableFragments cts data flag table = Return fs ->
  length (filter (fun f => isInsert f = true) fs)
  = length (default [] (data !! name table)).
Proof.
  unfold tableFragments.
  destruct (data !! name table) as [[|r tableData]|]; try (intros [= <-]; reflexivity).
  destruct (mapOutcome (rowFragment cts table) (r :: tableData)) as [inserts|e] eqn:Hrows;
    [|discriminate].
  cbn [omap obind]. intros [= <-].
  apply rowFragments_all_inserts in Hrows.
  destruct flag; cbn [app];
    repeat (rewrite filter_cons_False by discriminate);
    rewrite filter_isInsert_app, Hrows;
    rewrite filter_cons_False by discriminate; cbn; lia.
Qed.

(** X9. One INSERT statement per row: when generateInsertStatements
    returns, the fragments it has rendered hold as many INSERT statements
    as the datasets of the listed tables have rows (a table listed twice
    counting twice, a table without dataset counting for none). *)
Theorem insertFragments_one_per_row (cts : ColumnTypes) (tables : list TableInfo)
  (data : Dataset) (includeDropStatements : option bool) (doc : string) :
  generateInsertStatements cts tables data includeDropStatements = Return doc ->
  exists fs,
    insertFragments cts tables data includeDropStatements = Return fs /\
    doc = render fs /\
    length (filter (fun f => isInsert f = true) fs)
    = sum_list_with (fun table => length (default [] (data !! name table))) tables.
Proof.
  rewrite generateInsertStatements_render. unfold insertFragments.
  set (flag := default false includeDropStatements).
  destruct (mapOutcome (tableFragments cts data flag) tables) as [fss|e] eqn:Hmap;
    [|discriminate].
  cbn [omap obind]. intros [= <-].
  exists (concat fss). repeat split.
  clear -Hmap. revert fss Hmap. induction tables as [|table rest IH]; intros fss.
  - intros [= <-]. reflexivity.
  - cbn [mapOutcome].
    destruct (tableFragments cts data flag table) as [fs|e] eqn:Htable; [|discriminate].
    cbn [obind].
    destruct (mapOutcome (tableFragments cts data flag) rest) as [fss'|e]; [|discriminate].
    cbn [omap obind]. intros [= <-].
    cbn [concat sum_list_with].
    rewrite filter_isInsert_app, (tableFragments_inserts _ _ _ _ _ Htable),
      (IH fss' eq_refl).
    reflexivity.
Qed.

Lemma insertFragments_one_per_row_witness :
  exists fs,
    insertFragments ∅ [Scenario.usersTable; Scenario.tagsTable] Scenario.usersOnly None
    = Return fs /\
    length (filter (fun f => isInsert f = true) fs) = 2%nat.
Proof.
  edestruct (insertFragments_one_per_row ∅ [Scenario.usersTable; Scenario.tagsTable]
               Scenario.usersOnly None) as (fs & Hfs & _ & Hcount).
  - vm_compute. reflexivity.
  - exists fs. split; [exact Hfs|exact Hcount].
Defined.

(** X10. Drop mode only adds the guard. For a table with rows, the text
    generated with includeDropStatements set is the DROP TABLE IF EXISTS
    line on the quoted schema and table, a comment line naming the table,
    and then the very text generated without the parameter; for a table
    without rows the two texts are the same. *)
Theorem generateInsertStatements_drop_mode (cts : ColumnTypes) (table : TableInfo)
  (data : Dataset) :
  generateInsertStatements cts [table] data (Some true)
  = match data !! name table with
    | None | Some [] => generateInsertStatements cts [table] data None
    | Some _ =>
        omap (fun text =>
                "DROP TABLE IF EXISTS " +:+ quoteIdentifier (schema table) +:+ "."
                +:+ quoteIdentifier (name table) +:+ " CASCADE;" +:+ newline
                +:+ "-- Table: " +:+ schema table +:+ "." +:+ name table +:+ newline
                +:+ text)
          (generateInsertStatements cts [table] data None)
    end.
Proof.
  rewrite !generateInsertStatements_render. unfold insertFragments, tableFragments.
  cbn [mapOutcome from_option]. unfold id.
  destruct (data !! name table) as [[|r tableData]|]; try reflexivity.
  destruct (mapOutcome (rowFragment cts table) (r :: tableData)) as [inserts|e];
    [|reflexivity].
  cbn [omap obind concat app]. f_equal. rewrite !app_nil_r.
  cbn [render renderFragment]. unfold qualifiedName. append_normalize.
Qed.

(** *** The reconstruction document *)

Lemma schemaTables_success_calls (env : Env) (tables : list TableInfo) (sql sql' : string)
  (st st' : state) :
  schemaTables env tables sql st = (Return sql', st') ->
  calls st'
  = calls st
    ++ map (fun table => PgQuery (CreateTableQuery (schema table) (name table))) tables.
Proof.
  revert sql st. induction tables as [|table rest IH]; intros sql st.
  - intros [= <- <-]. cbn [map]. rewrite app_nil_r. reflexivity.
  - cbn [schemaTables map]. unfold bind, pgQuery.
    destruct (pg_create_table env (calls st) (schema table) (name table))
      as [rows|e]; [|discriminate].
    destruct rows; intros Hrest; apply IH in Hrest; rewrite Hrest;
      cbn [record_call calls]; rewrite <- app_assoc; reflexivity.
Qed.

(** X16. A schema extraction that succeeds has used one connection: it
    connects, asks for the enum types, then for the CREATE TABLE statement
    of each listed table in the order of the list, then for the indexes,
    and releases the connection; the text it returns starts with the
    schema heading. *)
Theorem extractSchema_success (env : Env) (config : SupabaseExtractorConfig)
  (tables : list TableInfo) (st st' : state) (sql : string) :
  extractSchema env config tables st = (Return sql, st') ->
  calls st'
  = calls st ++ [PgConnect (databaseUrl config)] ++ schemaQueries tables ++ [PgEnd] /\
  exists body, sql = "-- Database Schema" +:+ newline +:+ newline +:+ body.
Proof.
  unfold extractSchema, try_finally, bind, pgConnect, pgEnd.
  destruct (pg_connect env (calls st) (databaseUrl config)) as [e|].
  { destruct (pg_end env _); discriminate. }
  unfold pgQuery at 1.
  destruct (pg_enums env _) as [enumRows|e].
  2: { destruct (pg_end env _); discriminate. }
  destruct (schemaTables env tables _ _) as [[sql1|e] st1] eqn:Htables.
  2: { destruct (pg_end env _); discriminate. }
  unfold pgQuery, ret.
  destruct (pg_indexes env (calls st1)) as [indexRows|e].
  2: { destruct (pg_end env _); discriminate. }
  destruct (pg_end env _); [discriminate|].
  intros [= <- <-]. split.
  - apply schemaTables_success_calls in Htables.
    cbn [record_call calls] in Htables |- *. rewrite Htables. unfold schemaQueries.
    rewrite <- !app_assoc. reflexivity.
  - rewrite schemaTables_render in Htables.
    destruct (schemaTableFragments env tables _) as [[tableFs|e] st2]; [|discriminate].
    cbn [omap obind] in Htables. injection Htables as <- _.
    destruct enumRows as [|enumRow enumRows'], indexRows as [|indexRow indexRows'];
      rewrite ?schemaEnums_render, ?schemaIndexes_render;
      eexists; rewrite ?append_assoc; reflexivity.
Qed.

Lemma extractSchema_success_witness :
  calls (snd (extractSchema Scenario.healthy Scenario.privilegedConfig
                [Scenario.usersTable; Scenario.tagsTable] Scenario.initial))
  = [] ++ [PgConnect (Some "postgresql://postgres@db/postgres")]
    ++ schemaQueries [Scenario.usersTable; Scenario.tagsTable] ++ [PgEnd].
Proof.
  eapply (fun sql H => proj1 (extractSchema_success Scenario.healthy
                                Scenario.privilegedConfig
                                [Scenario.usersTable; Scenario.tagsTable]
                                Scenario.initial _ sql H)).
  vm_compute. reflexivity.
Defined.


(** X18. With a connection string, the document is all or nothing with
    respect to the schema: if the schema extraction throws,
    generateReconstructionSQL throws the same error and generates no
    INSERT statement after it; when a document is returned, it is the
    header, the extracted schema, the INSERT statements and the footer,
    in that order. *)
Theorem generateReconstructionSQL_with_connection (env : Env)
  (config : SupabaseExtractorConfig) (tables : list TableInfo) (data : Dataset)
  (st : state) :
  hasDatabaseUrl config = true ->
  (forall e st1,
     extractSchema env config tables (record_call ClockNow st) = (Throw e, st1) ->
     generateReconstructionSQL env config tables data st = (Throw e, st1)) /\
  (forall doc st',
     generateReconstructionSQL env config tables data st = (Return doc, st') ->
     exists schemaSQL inserts,
       extractSchema env config tables (record_call ClockNow st) = (Return schemaSQL, st') /\
       generateInsertStatements (columnTypes st') tables data None = Return inserts /\
       doc = documentHeader (clock env (calls st)) +:+ schemaSQL
             +:+ inserts +:+ documentFooter).
Proof.
  intros Hurl. unfold generateReconstructionSQL, bind, now, ret. rewrite Hurl. split.
  - intros e st1 ->. reflexivity.
  - intros doc st'.
    destruct (extractSchema env config tables _) as [[schemaSQL|e] st1]; [|discriminate].
    destruct (generateInsertStatements (columnTypes st1) tables data None)
      as [inserts|e] eqn:Hinserts; [|discriminate].
    intros [= <- <-]. exists schemaSQL, inserts. split; [reflexivity|].
    split; [exact Hinserts|].
    unfold documentHeader, documentFooter. cbn [render renderFragment].
    append_normalize.
Qed.


Lemma generateReconstructionSQL_with_connection_witness :
  exists e st1,
    generateReconstructionSQL Scenario.unreachable Scenario.privilegedConfig
      [Scenario.usersTable] Scenario.usersOnly Scenario.initial = (Throw e, st1).
Proof.
  eexists. eexists.
  apply (proj1 (generateReconstructionSQL_with_connection Scenario.unreachable
                  Scenario.privilegedConfig [Scenario.usersTable] Scenario.usersOnly
                  Scenario.initial eq_refl)).
  vm_compute. reflexivity.
Defined.

(** *** The command-line entry point *)

Lemma reconstruction_no_drop (env : Env) (config : SupabaseExtractorConfig)
  (tables : list TableInfo) (data : Dataset) (st st' : state) (doc : string) :
  generateReconstructionSQL env config tables data st = (Return doc, st') ->
  exists fs, doc = render fs /\ Forall (fun f => isDropTable f = false) fs.
Proof.
  rewrite generateReconstructionSQL_render.
  destruct (reconstructionFragments env config tables data st) as [[fs|e] st1] eqn:Hfs;
    [|discriminate].
  cbn [omap obind]. intros [= <- <-]. exists fs. split; [reflexivity|].
  revert Hfs. unfold reconstructionFragments, bind, now, ret.
  destruct (hasDatabaseUrl config).
  - destruct (schemaFragments env config tables _) as [[schemaFs|e] st2] eqn:Hschema;
      [|discriminate].
    destruct (insertFragments _ tables data None) as [insertFs|e] eqn:Hins;
      [|discriminate].
    intros [= <- <-].
    apply schemaFragments_no_drop in Hschema. apply insertFragments_no_drop in Hins.
    repeat no_drop_step.
  - destruct (insertFragments _ tables data None) as [insertFs|e] eqn:Hins;
      [|discriminate].
    intros [= <- <-]. apply insertFragments_no_drop in Hins. repeat no_drop_step.
Qed.

(** The part of main that follows the creation of the output
    directory. *)
Lemma mainFrom_run (host : Host) (env : Env) (config : SupabaseExtractorConfig)
  (fuel : nat) (ops : list fileOp) (r : run) :
  mainFrom host env config fuel ops = Some r ->
  pgRun false (trace r) = Some false /\
  ((files r = ops /\ (status r = Finished \/ status r = Exit 1)) \/
   exists tables extractedData st st' doc,
     generateReconstructionSQL env config tables extractedData st = (Return doc, st') /\
     (exists fs, doc = render fs /\ Forall (fun f => isDropTable f = false) fs) /\
     ((files r = ops ++ [WriteFile (sqlFilePath host) doc] /\ status r = Exit 1) \/
      exists insertStatements,
        generateInsertStatements (columnTypes st') tables extractedData (Some true)
          = Return insertStatements /\
        files r = ops ++ [WriteFile (sqlFilePath host) doc;
                          WriteFile (insertFilePath host) insertStatements] /\
        status r = Finished)).
Proof.
  unfold mainFrom.
  set (st0 := {| columnTypes := ∅; calls := [] |}).
  assert (forall st, extends st0 st -> pgRun false (calls st) = Some false) as Hclosed.
  { intros st (l & -> & Hl). exact Hl. }
  destruct (discoverTables env config st0) as [[tables|e] st1] eqn:Hdiscover;
    apply discoverTables_extends in Hdiscover.
  2: { intros [= <-]. cbn [trace files status]. split; [apply Hclosed, Hdiscover|].
       left. split; [reflexivity|right; reflexivity]. }
  destruct tables as [|table tables].
  { intros [= <-]. cbn [trace files status]. split; [apply Hclosed, Hdiscover|].
    left. split; [reflexivity|left; reflexivity]. }
  destruct (extractAllData env config fuel (table :: tables) st1)
    as [[[extractedData|e] st2]|] eqn:Hextract; [| |discriminate].
  2: { exfalso. eapply extractAllData_never_throws. exact Hextract. }
  assert (extends st1 st2) as Hext2.
  { unfold extractAllData, prefetchIfPrivileged in Hextract. cbv zeta in Hextract.
    apply extractAllData_loop_extends in Hextract as [Hext _].
    eapply extends_trans; [|exact Hext].
    destruct (hasDatabaseUrl config); [apply prefetchColumnTypes_extends|apply extends_refl]. }
  destruct (generateReconstructionSQL env config (table :: tables) extractedData st2)
    as [[sqlScript|e] st3] eqn:Hgenerate.
  2: { apply generateReconstructionSQL_extends in Hgenerate.
       intros [= <-]. cbn [trace files status].
       split; [apply Hclosed; repeat (eapply extends_trans; [eassumption|]); apply extends_refl|].
       left. split; [reflexivity|right; reflexivity]. }
  pose proof (generateReconstructionSQL_extends _ _ _ _ _ _ _ Hgenerate) as Hext3.
  pose proof (reconstruction_no_drop _ _ _ _ _ _ _ Hgenerate) as HnoDrop.
  assert (pgRun false (calls st3) = Some false) as Hclosed3.
  { apply Hclosed; repeat (eapply extends_trans; [eassumption|]); apply extends_refl. }
  unfold writeFile.
  destruct (fs_writeFileSync host ops (sqlFilePath host) sqlScript).
  { intros [= <-]. cbn [trace files status]. split; [exact Hclosed3|].
    left. split; [reflexivity|right; reflexivity]. }
  destruct (generateInsertStatements (columnTypes st3) (table :: tables) extractedData
              (Some true)) as [insertStatements|e] eqn:Hinserts.
  2: { intros [= <-]. cbn [trace files status]. split; [exact Hclosed3|].
       right. exists (table :: tables), extractedData, st2, st3, sqlScript.
       split; [exact Hgenerate|]. split; [exact HnoDrop|]. left. split; reflexivity. }
  destruct (fs_writeFileSync host _ (insertFilePath host) insertStatements).
  { intros [= <-]. cbn [trace files status]. split; [exact Hclosed3|].
    right. exists (table :: tables), extractedData, st2, st3, sqlScript.
    split; [exact Hgenerate|]. split; [exact HnoDrop|]. left. split; reflexivity. }
  intros [= <-]. cbn [trace files status]. split; [exact Hclosed3|].
  right. exists (table :: tables), extractedData, st2, st3, sqlScript.
  split; [exact Hgenerate|]. split; [exact HnoDrop|]. right.
  exists insertStatements. split; [exact Hinserts|].
  rewrite <- app_assoc. split; reflexivity.
Qed.



(** X20. main and the clients. Without both credentials (an unset or empty
    SUPABASE_URL or SUPABASE_SERVICE_ROLE_KEY), main exits with code 1
    before it touches a client or the file system. In every run, the calls
    made to the clients respect the discipline of the privileged
    connection and leave no connection open when the process ends. *)
Theorem main_clients (host : Host) (env : Env) (fuel : nat) :
  ((SUPABASE_URL host = None \/ SUPABASE_URL host = Some "" \/
    SUPABASE_SERVICE_ROLE_KEY host = None \/ SUPABASE_SERVICE_ROLE_KEY host = Some "") ->
   main host env fuel = Some {| status := Exit 1; files := []; trace := [] |}) /\
  (forall r, main host env fuel = Some r -> pgRun false (trace r) = Some false).
Proof.
  split.
  - unfold main. cbv zeta.
    intros [-> | [-> | [-> | ->]]].
    + reflexivity.
    + destruct (SUPABASE_SERVICE_ROLE_KEY host); reflexivity.
    + destruct (SUPABASE_URL host); reflexivity.
    + destruct (SUPABASE_URL host) as [url|]; [|reflexivity].
      cbn [truthy negb]. rewrite orb_true_r. reflexivity.
  - intros r. unfold main. cbv zeta.
    destruct (SUPABASE_URL host) as [url|]; [|intros [= <-]; reflexivity].
    destruct (SUPABASE_SERVICE_ROLE_KEY host) as [key|]; [|intros [= <-]; reflexivity].
    destruct (negb (truthy url) || negb (truthy key)); [intros [= <-]; reflexivity|].
    destruct (fs_existsSync host [] (outputDir host)).
    + intros Hrun. apply mainFrom_run in Hrun as [Hclosed _]. exact Hclosed.
    + destruct (fs_mkdirSync host [] (outputDir host)); [intros [= <-]; reflexivity|].
      intros Hrun. apply mainFrom_run in Hrun as [Hclosed _]. exact Hclosed.
Qed.

Example main_run :
  exists doc insertStatements,
    main Cases.posixRestricted (Cases.withRpc [Some ("users", None)]) 1
    = Some {| status := Finished;
              files := [Mkdir "/work/output";
                        WriteFile "/work/output/database_reconstruction.sql" doc;
                        WriteFile "/work/output/database_inserts.sql" insertStatements];
              trace := [Rpc "get_all_tables"; SelectRange "users" 0 999; ClockNow] |}.
Proof. eexists. eexists. vm_compute. reflexivity. Qed.
